(** * protoc-gen-apidocs: the template helpers, the template resolver and
      the generation driver of [main.go], embedded in Rocq.

    Go strings are byte sequences: they are modelled as [string] (a list
    of 8-bit [ascii] characters).  The regular expressions of the program
    read their input one UTF-8 rune at a time, so the regexp layer works on
    the runes that [utf8.DecodeRuneInString] yields. *)

From Stdlib Require Import ZArith Lia List Bool Ascii String Arith.
Import ListNotations.

Open Scope string_scope.
Open Scope list_scope.
Open Scope nat_scope.

(** ** Bytes and strings *)

Definition byteZ (c : ascii) : Z := Z.of_N (N_of_ascii c).

Definition LF : ascii := ascii_of_nat 10.
Definition CR : ascii := ascii_of_nat 13.
Definition TAB : ascii := ascii_of_nat 9.
Definition FF : ascii := ascii_of_nat 12.
Definition SP : ascii := ascii_of_nat 32.

(** [s[i]] for an index the caller has bounds-checked. *)
Definition idx (s : string) (i : nat) : Z :=
  match String.get i s with
  | Some c => byteZ c
  | None => 0%Z
  end.

(** [s[:n]] *)
Fixpoint take (n : nat) (s : string) : string :=
  match n, s with
  | S k, String c t => String c (take k t)
  | _, _ => ""
  end.

(** [s[n:]] *)
Fixpoint drop (n : nat) (s : string) : string :=
  match n, s with
  | S k, String _ t => drop k t
  | _, _ => s
  end.

(** ** unicode/utf8 *)

Module utf8.

Definition RuneError : Z := 0xFFFD.
Definition RuneSelf : Z := 0x80.

Definition locb : Z := 0x80.
Definition hicb : Z := 0xBF.
Definition maskx : Z := 0x3F.
Definition mask2 : Z := 0x1F.
Definition mask3 : Z := 0x0F.
Definition mask4 : Z := 0x07.

(** The entries of the table [first] for a byte at or above [RuneSelf],
    with the accept range of the second byte: [None] is the entry [xx]
    (an invalid leading byte), [Some (sz, lo, hi)] a leading byte of a
    sequence of [sz] bytes. *)
Definition first (s0 : Z) : option (nat * Z * Z) :=
  if (s0 <? 0xC2)%Z then None
  else if (s0 <=? 0xDF)%Z then Some (2, locb, hicb)
  else if (s0 =? 0xE0)%Z then Some (3, 0xA0%Z, hicb)
  else if (s0 <=? 0xEC)%Z then Some (3, locb, hicb)
  else if (s0 =? 0xED)%Z then Some (3, locb, 0x9F%Z)
  else if (s0 <=? 0xEF)%Z then Some (3, locb, hicb)
  else if (s0 =? 0xF0)%Z then Some (4, 0x90%Z, hicb)
  else if (s0 <=? 0xF3)%Z then Some (4, locb, hicb)
  else if (s0 =? 0xF4)%Z then Some (4, locb, 0x8F%Z)
  else None.

(** [utf8.DecodeRuneInString]: the first rune of [s] and its width in
    bytes; an invalid encoding is [RuneError] of width 1, the empty
    string [RuneError] of width 0. *)
Definition DecodeRuneInString (s : string) : Z * nat :=
  let n := String.length s in
  if n <? 1 then (RuneError, 0)
  else
    let s0 := idx s 0 in
    if (s0 <? RuneSelf)%Z then (s0, 1)
    else
      match first s0 with
      | None => (RuneError, 1)
      | Some (sz, lo, hi) =>
        if n <? sz then (RuneError, 1)
        else
          let s1 := idx s 1 in
          if ((s1 <? lo) || (hi <? s1))%Z then (RuneError, 1)
          else if sz <=? 2 then
            (Z.lor (Z.shiftl (Z.land s0 mask2) 6) (Z.land s1 maskx), 2)
          else
            let s2 := idx s 2 in
            if ((s2 <? locb) || (hicb <? s2))%Z then (RuneError, 1)
            else if sz <=? 3 then
              (Z.lor (Z.lor (Z.shiftl (Z.land s0 mask3) 12)
                            (Z.shiftl (Z.land s1 maskx) 6))
                     (Z.land s2 maskx), 3)
            else
              let s3 := idx s 3 in
              if ((s3 <? locb) || (hicb <? s3))%Z then (RuneError, 1)
              else
                (Z.lor (Z.lor (Z.lor (Z.shiftl (Z.land s0 mask4) 18)
                                     (Z.shiftl (Z.land s1 maskx) 12))
                              (Z.shiftl (Z.land s2 maskx) 6))
                       (Z.land s3 maskx), 4)
      end.

End utf8.

(** A rune of the input together with the bytes it was decoded from. *)
Record rune : Type := mkRune { code : Z; raw : string }.

(** The runes of a string, in order, as a loop stepping by
    [DecodeRuneInString] reads them.  [skip] counts the bytes of the
    current rune that are still to be passed over. *)
Fixpoint runes_from (skip : nat) (s : string) : list rune :=
  match s with
  | "" => []
  | String _ t =>
    match skip with
    | S k => runes_from k t
    | O =>
      let (r, w) := utf8.DecodeRuneInString s in
      mkRune r (take w s) :: runes_from (w - 1) t
    end
  end.

Definition runes (s : string) : list rune := runes_from 0 s.

(** The bytes of a sequence of runes. *)
Fixpoint bytes (rs : list rune) : string :=
  match rs with
  | [] => ""
  | r :: rs' => (raw r ++ bytes rs')%string
  end.

(** [s[a:b]] on a decoded string, positions counted in runes. *)
Definition slice (s : list rune) (a b : nat) : string :=
  bytes (firstn (b - a) (skipn a s)).

(** ** regexp

    The syntax tree of a compiled pattern and Go's leftmost-first match:
    among the matches that start at the leftmost possible position, the
    one a backtracking search finds first, alternatives tried in the
    order written and repetitions greedy. *)

Module regexp.

Inductive syntax : Type :=
| Lit (c : ascii)                        (* one literal character *)
| CharClass (negated : bool) (ranges : list (Z * Z))
| Concat (a b : syntax)
| Alternate (a b : syntax)               (* a|b *)
| Star (a : syntax)                      (* a* *)
| Plus (a : syntax)                      (* a+ *)
| RepeatMin2 (a : syntax).               (* a{2,} *)

Record Regexp : Type := MustCompile' { expr : string; prog : syntax }.

Definition in_ranges (ranges : list (Z * Z)) (r : Z) : bool :=
  existsb (fun lh => (fst lh <=? r)%Z && (r <=? snd lh)%Z) ranges.

Definition class_matches (negated : bool) (ranges : list (Z * Z)) (r : rune) : bool :=
  xorb negated (in_ranges ranges (code r)).

(** Greedy iteration of [body]: another round first, the continuation
    [k] if that fails.  [n] bounds the rounds; a round that consumes
    nothing is not repeated. *)
Fixpoint star_loop {A : Type}
    (body : list rune -> (list rune -> option A) -> option A)
    (n : nat) (s : list rune) (k : list rune -> option A) : option A :=
  match n with
  | O => k s
  | S n' =>
    match body s (fun s1 =>
                    if List.length s1 <? List.length s then star_loop body n' s1 k
                    else None) with
    | Some x => Some x
    | None => k s
    end
  end.

(** The backtracking match of [re] at the start of [s], continued by [k]
    on the rest of the input. *)
Fixpoint backtrack {A : Type} (re : syntax) (s : list rune)
    (k : list rune -> option A) : option A :=
  match re with
  | Lit c =>
    match s with
    | r :: s' => if (code r =? byteZ c)%Z then k s' else None
    | [] => None
    end
  | CharClass negated ranges =>
    match s with
    | r :: s' => if class_matches negated ranges r then k s' else None
    | [] => None
    end
  | Concat a b => backtrack a s (fun s1 => backtrack b s1 k)
  | Alternate a b =>
    match backtrack a s k with
    | Some x => Some x
    | None => backtrack b s k
    end
  | Star a => star_loop (backtrack a) (List.length s) s k
  | Plus a =>
    backtrack a s (fun s1 => star_loop (backtrack a) (List.length s1) s1 k)
  | RepeatMin2 a =>
    backtrack a s (fun s1 =>
      backtrack a s1 (fun s2 => star_loop (backtrack a) (List.length s2) s2 k))
  end.

(** The number of runes of the match of [re] anchored at the start of [s]. *)
Definition matchPrefix (re : syntax) (s : list rune) : option nat :=
  backtrack re s (fun rest => Some (List.length s - List.length rest)).

(** The leftmost match in [s], whose first rune has position [off]. *)
Fixpoint search (re : syntax) (s : list rune) (off : nat) : option (nat * nat) :=
  match matchPrefix re s with
  | Some n => Some (off, off + n)
  | None =>
    match s with
    | [] => None
    | _ :: s' => search re s' (S off)
    end
  end.

(** [re.doExecute] on string input: the bounds [(a0, a1)] of the leftmost
    match that starts at or after [pos]. *)
Definition doExecute (re : Regexp) (s : list rune) (pos : nat) : option (nat * nat) :=
  search (prog re) (skipn pos s) pos.

(** The loop of [re.allMatches] with no limit on the number of matches;
    [prevMatchEnd] starts at -1. *)
Fixpoint allMatches_loop (fuel : nat) (re : Regexp) (s : list rune)
    (pos : nat) (prevMatchEnd : Z) : list (nat * nat) :=
  match fuel with
  | O => []
  | S fuel' =>
    if List.length s <? pos then []
    else
      match doExecute re s pos with
      | None => []
      | Some (m0, m1) =>
        (* an empty match right after the previous match is ignored *)
        let accept := negb ((m1 =? pos) && (Z.of_nat m0 =? prevMatchEnd)%Z) in
        let pos' :=
          if m1 =? pos
          then (if pos <? List.length s then pos + 1 else List.length s + 1)
          else m1 in
        (if accept then [(m0, m1)] else [])
          ++ allMatches_loop fuel' re s pos' (Z.of_nat m1)
      end
  end.

Definition FindAllStringIndex (re : Regexp) (s : list rune) : list (nat * nat) :=
  allMatches_loop (List.length s + 2) re s 0 (-1).

(** The loop of [re.Split(s, -1)] over the matches. *)
Fixpoint Split_loop (s : list rune) (matches : list (nat * nat))
    (beg end_ : nat) (strings : list string) : list string * nat * nat :=
  match matches with
  | [] => (strings, beg, end_)
  | (m0, m1) :: rest =>
    let end_ := m0 in
    let strings := if negb (m1 =? 0) then strings ++ [slice s beg end_] else strings in
    Split_loop s rest m1 end_ strings
  end.

(** [re.Split(s, -1)] *)
Definition Split (re : Regexp) (str : string) : list string :=
  let s := runes str in
  if (0 <? String.length (expr re)) && (String.length str =? 0) then [""]
  else
    let matches := FindAllStringIndex re s in
    let '(strings, beg, end_) := Split_loop s matches 0 0 [] in
    if negb (end_ =? List.length s) then strings ++ [slice s beg (List.length s)]
    else strings.

(** The loop of [re.replaceAll]; [repl] holds no [$], so [re.expand]
    copies it as it is. *)
Fixpoint replaceAll_loop (fuel : nat) (re : Regexp) (src : list rune)
    (repl : string) (lastMatchEnd searchPos : nat) (buf : string) : string * nat :=
  match fuel with
  | O => (buf, lastMatchEnd)
  | S fuel' =>
    if List.length src <? searchPos then (buf, lastMatchEnd)
    else
      match doExecute re src searchPos with
      | None => (buf, lastMatchEnd)
      | Some (a0, a1) =>
        let buf := (buf ++ slice src lastMatchEnd a0)%string in
        let buf :=
          if (lastMatchEnd <? a1) || (a0 =? 0) then (buf ++ repl)%string
          else buf in
        let width := if searchPos <? List.length src then 1 else 0 in
        let searchPos' :=
          if a1 <? searchPos + width then searchPos + width
          else if a1 <? searchPos + 1 then searchPos + 1
          else a1 in
        replaceAll_loop fuel' re src repl a1 searchPos' buf
      end
  end.

(** [re.ReplaceAllString(src, repl)] for a replacement without [$]. *)
Definition ReplaceAllString (re : Regexp) (src repl : string) : string :=
  let s := runes src in
  let (buf, lastMatchEnd) := replaceAll_loop (List.length s + 2) re s repl 0 0 "" in
  (buf ++ slice s lastMatchEnd (List.length s))%string.

End regexp.

(** ** strings *)

Module strings.

(** [strings.HasPrefix] *)
Definition HasPrefix (s prefix : string) : bool := String.prefix prefix s.

(** [strings.Join] *)
Fixpoint Join (elems : list string) (sep : string) : string :=
  match elems with
  | [] => ""
  | [e] => e
  | e :: rest => (e ++ sep ++ Join rest sep)%string
  end.

(** The number of replacements [strings.Replace] may still make: [None]
    when there is no limit. *)
Definition spent (cnt : option nat) : bool :=
  match cnt with
  | Some O => true
  | _ => false
  end.

Definition one_less (cnt : option nat) : option nat := option_map pred cnt.

(** The replacement loop of [strings.Replace] for a non-empty [old]:
    every occurrence of [old], found from the left and not overlapping
    the one before, becomes [new].  [skip] counts the bytes of the
    current occurrence still to be passed over. *)
Fixpoint replace_from (cnt : option nat) (skip : nat) (s old new : string) : string :=
  match s with
  | "" => ""
  | String c t =>
    match skip with
    | S k => replace_from cnt k t old new
    | O =>
      if spent cnt then s
      else if String.prefix old s
      then (new ++ replace_from (one_less cnt) (String.length old - 1) t old new)%string
      else String c (replace_from cnt 0 t old new)
    end
  end.

(** The same loop for an empty [old], which matches before every rune
    and at the end of the string. *)
Fixpoint insert_after (cnt : option nat) (rs : list rune) (new : string) : string :=
  match rs with
  | [] => ""
  | r :: rs' =>
    if spent cnt then bytes rs
    else (raw r ++ new ++ insert_after (one_less cnt) rs' new)%string
  end.

(** [strings.Replace]; a negative [n] is no limit. *)
Definition Replace (s old new : string) (n : Z) : string :=
  if String.eqb old new || (n =? 0)%Z then s
  else
    let cnt := if (n <? 0)%Z then None else Some (Z.to_nat n) in
    if String.eqb old ""
    then (new ++ insert_after (one_less cnt) (runes s) new)%string
    else replace_from cnt 0 s old new.

(** [strings.ReplaceAll] *)
Definition ReplaceAll (s old new : string) : string := Replace s old new (-1).

Definition IndexByte (s : string) (c : ascii) : bool :=
  existsb (Ascii.eqb c) (list_ascii_of_string s).

(** [makeASCIISet] succeeds when every byte of [chars] is ASCII. *)
Definition makeASCIISet (chars : string) : option (ascii -> bool) :=
  if forallb (fun c => (byteZ c <? utf8.RuneSelf)%Z) (list_ascii_of_string chars)
  then Some (IndexByte chars)
  else None.

Fixpoint trimLeftASCII (s : string) (as_ : ascii -> bool) : string :=
  match s with
  | "" => ""
  | String c t => if as_ c then trimLeftASCII t as_ else s
  end.

Definition ContainsRune (s : string) (r : Z) : bool :=
  existsb (fun x => (code x =? r)%Z) (runes s).

Fixpoint trimLeftUnicode (rs : list rune) (cutset : string) : string :=
  match rs with
  | [] => ""
  | r :: rs' =>
    if ContainsRune cutset (code r) then trimLeftUnicode rs' cutset
    else bytes rs
  end.

(** [strings.TrimLeft] *)
Definition TrimLeft (s cutset : string) : string :=
  if String.eqb s "" || String.eqb cutset "" then s
  else
    match makeASCIISet cutset with
    | Some as_ => trimLeftASCII s as_
    | None => trimLeftUnicode (runes s) cutset
    end.

End strings.

(** ** fmt *)

(** [fmt.Sprint] of one operand, for the operand types of this program.
    A string prints as itself; a type with a [String] method prints as
    that method's result. *)
Class Sprintable (A : Type) : Type := Sprint : A -> string.

#[export] Instance Sprint_string : Sprintable string := fun s => s.

(** ** Template helpers: the patterns and the text filters *)

Import regexp.

Definition rng (lo hi : ascii) : Z * Z := (byteZ lo, byteZ hi).

(** Perl class [\s]: tab, line feed, form feed, carriage return, space. *)
Definition perl_space : syntax :=
  CharClass false [rng TAB LF; rng FF CR; rng SP SP].

Definition paraPattern : Regexp :=
  MustCompile' "(\n|\r|\r\n)\s*"
    (Concat (Alternate (Lit LF) (Alternate (Lit CR) (Concat (Lit CR) (Lit LF))))
            (Star perl_space)).

Definition spacePattern : Regexp :=
  MustCompile' "( )+" (Plus (Lit SP)).

(** The group [(\r\n|\r|\n)]. *)
Definition lineBreak : syntax :=
  Alternate (Concat (Lit CR) (Lit LF)) (Alternate (Lit CR) (Lit LF)).

Definition multiNewlinePattern : Regexp :=
  MustCompile' "(\r\n|\r|\n){2,}" (RepeatMin2 lineBreak).

Definition specialCharsPattern : Regexp :=
  MustCompile' "[^a-zA-Z0-9_-]"
    (CharClass true [rng "a" "z"; rng "A" "Z"; rng "0" "9"; rng "_" "_"; rng "-" "-"]).

Definition pFilter (content : string) : string :=
  let paragraphs := Split paraPattern content in
  ("<p>" ++ strings.Join paragraphs "</p><p>" ++ "</p>")%string.

Definition paraFilter (content : string) : string :=
  let paragraphs := Split paraPattern content in
  ("<para>" ++ strings.Join paragraphs "</para><para>" ++ "</para>")%string.

Definition CRLF : string := String CR (String LF "").

Definition nobrFilter (content : string) : string :=
  let normalized := strings.Replace content CRLF (String LF "") (-1) in
  let paragraphs := Split multiNewlinePattern normalized in
  let paragraphs :=
    map (fun p =>
           let withoutCR := strings.Replace p (String CR "") " " (-1) in
           let withoutLF := strings.Replace withoutCR (String LF "") " " (-1) in
           ReplaceAllString spacePattern withoutLF " ")
        paragraphs in
  strings.Join paragraphs (String LF (String LF "")).

(** The helper [anchor] of [templateFuncMap]. *)
Definition anchor {A : Type} `{Sprintable A} (str : A) : string :=
  ReplaceAllString specialCharsPattern (strings.ReplaceAll (Sprint str) "/" "_") "-".

(** The helper [description] of [templateFuncMap]. *)
Definition description {A : Type} `{Sprintable A} (s : A) : string :=
  let val := strings.TrimLeft (Sprint s) ("*/" ++ String LF " ") in
  if strings.HasPrefix val "@exclude" then "" else val.

(** ** protoreflect and protogen: the descriptor model *)

Module protoreflect.

(** The kinds a field descriptor can have. *)
Inductive Kind : Type :=
| BoolKind | EnumKind | Int32Kind | Sint32Kind | Uint32Kind
| Int64Kind | Sint64Kind | Uint64Kind | Sfixed32Kind | Fixed32Kind
| FloatKind | Sfixed64Kind | Fixed64Kind | DoubleKind | StringKind
| BytesKind | MessageKind | GroupKind.

(** [Kind.String] *)
Definition Kind_String (k : Kind) : string :=
  match k with
  | BoolKind => "bool"
  | EnumKind => "enum"
  | Int32Kind => "int32"
  | Sint32Kind => "sint32"
  | Uint32Kind => "uint32"
  | Int64Kind => "int64"
  | Sint64Kind => "sint64"
  | Uint64Kind => "uint64"
  | Sfixed32Kind => "sfixed32"
  | Fixed32Kind => "fixed32"
  | FloatKind => "float"
  | Sfixed64Kind => "sfixed64"
  | Fixed64Kind => "fixed64"
  | DoubleKind => "double"
  | StringKind => "string"
  | BytesKind => "bytes"
  | MessageKind => "message"
  | GroupKind => "group"
  end.

(** The numbers of the kinds, which [==] compares. *)
Definition Kind_number (k : Kind) : Z :=
  match k with
  | DoubleKind => 1 | FloatKind => 2 | Int64Kind => 3 | Uint64Kind => 4
  | Int32Kind => 5 | Fixed64Kind => 6 | Fixed32Kind => 7 | BoolKind => 8
  | StringKind => 9 | GroupKind => 10 | MessageKind => 11 | BytesKind => 12
  | Uint32Kind => 13 | EnumKind => 14 | Sfixed32Kind => 15
  | Sfixed64Kind => 16 | Sint32Kind => 17 | Sint64Kind => 18
  end%Z.

Definition Kind_eqb (a b : Kind) : bool :=
  (Kind_number a =? Kind_number b)%Z.

(** A descriptor with its chain of parents: [Parent] is [None] for a
    file, the declaring node for everything else. *)
#[warnings="-register-all"]
Inductive Descriptor : Type :=
  mkDescriptor { Name : string; FullName : string; Parent : option Descriptor }.

Record FieldDescriptor : Type :=
  mkFieldDescriptor { Field_Base : Descriptor; Kind_ : Kind }.

End protoreflect.

#[export] Instance Sprint_Kind : Sprintable protoreflect.Kind := protoreflect.Kind_String.

Module protogen.

Record Message : Type := mkMessage { Message_Desc : protoreflect.Descriptor }.

Record Enum : Type := mkEnum { Enum_Desc : protoreflect.Descriptor }.

(** [Message] and [Enum] are pointers in Go: [None] is [nil]. *)
Record Field : Type :=
  mkField { Field_Desc : protoreflect.FieldDescriptor;
            Field_Message : option Message;
            Field_Enum : option Enum }.

End protogen.

Import protoreflect protogen.

(** The outcome of a helper that can dereference a nil pointer. *)
Inductive outcome (A : Type) : Type :=
| Returns (a : A)
| Panics (msg : string).
Arguments Returns {A} a.
Arguments Panics {A} msg.

Definition nil_dereference : string :=
  "runtime error: invalid memory address or nil pointer dereference".

Definition longName (d : Descriptor) : string :=
  match Parent d with
  | Some p =>
    match Parent p with
    | Some _ => (Sprint (Name p) ++ "." ++ Sprint (Name d))%string
    | None => Sprint (Name d)
    end
  | None => Sprint (Name d)
  end.

Definition field_type (f : Field) : string :=
  match Field_Message f with
  | Some m => longName (Message_Desc m)
  | None =>
    match Field_Enum f with
    | Some e => longName (Enum_Desc e)
    | None => Sprint (Kind_ (Field_Desc f))
    end
  end.

Definition full_field_type (f : Field) : string :=
  match Field_Message f with
  | Some m => Sprint (FullName (Message_Desc m))
  | None =>
    match Field_Enum f with
    | Some e => Sprint (FullName (Enum_Desc e))
    | None => Sprint (Kind_ (Field_Desc f))
    end
  end.

Definition is_primitive (f : Field) : bool :=
  let k := Kind_ (Field_Desc f) in
  let nonPrim := Kind_eqb k EnumKind || Kind_eqb k MessageKind || Kind_eqb k GroupKind in
  negb nonPrim.

Definition message_type (f : option Message) : outcome string :=
  match f with
  | None => Returns "(none)"
  | Some m => Returns (Sprint (Name (Message_Desc m)))
  end.

Definition full_message_type (f : option Message) : outcome string :=
  match f with
  | None => Panics nil_dereference
  | Some m => Returns (Sprint (FullName (Message_Desc m)))
  end.

(** ** errors *)

Inductive error : Type :=
| errorString (s : string)                 (* errors.New, fmt.Errorf without %w *)
| PathError (Op Path : string) (Err : error)   (* *fs.PathError *)
| wrapError (msg : string) (err : error).  (* fmt.Errorf with %w *)

(** The method [Error]. *)
Fixpoint Error (e : error) : string :=
  match e with
  | errorString s => s
  | PathError op p err => (op ++ " " ++ p ++ ": " ++ Error err)%string
  | wrapError msg _ => msg
  end.

(** [errors.Unwrap] *)
Definition Unwrap (e : error) : option error :=
  match e with
  | errorString _ => None
  | PathError _ _ err => Some err
  | wrapError _ err => Some err
  end.

Inductive result (A : Type) : Type :=
| Ok (a : A)
| Err (e : error).
Arguments Ok {A} a.
Arguments Err {A} e.

Definition bind {A B : Type} (r : result A) (f : A -> result B) : result B :=
  match r with
  | Ok a => f a
  | Err e => Err e
  end.

Notation "x <- r ;; k" := (bind r (fun x => k))
  (at level 61, r at next level, right associativity).

(** ** io/fs, os and embed: the file systems the resolver reads *)

Module fs.

Definition ErrInvalid : error := errorString "invalid argument".
Definition ErrNotExist : error := errorString "file does not exist".
Definition ErrBadPattern : error := errorString "syntax error in pattern".
Definition ENOENT : error := errorString "no such file or directory".
Definition EISDIR : error := errorString "is a directory".

Inductive node : Type :=
| RegularFile (data : string)
| Directory.

(** A file tree: what is found under a slash-separated name. *)
Definition tree : Type := string -> option node.

(** The file system values of the program. *)
Inductive FS : Type :=
| embedFS (files : tree)              (* an embed.FS *)
| dirFS (dir : string)                (* os.DirFS(dir) *)
| subFS (fsys : FS) (dir : string).   (* the result of fs.Sub *)

(** The elements of a slash-separated name. *)
Fixpoint elements (name : string) : list string :=
  match name with
  | "" => [""]
  | String c t =>
    if Ascii.eqb c "/" then "" :: elements t
    else
      match elements t with
      | e :: es => String c e :: es
      | [] => [String c ""]
      end
  end.

(** [utf8.ValidString] *)
Definition ValidString (s : string) : bool :=
  forallb (fun r => negb ((code r =? utf8.RuneError)%Z && (String.length (raw r) =? 1)))
          (runes s).

(** [fs.ValidPath] *)
Definition ValidPath (name : string) : bool :=
  if negb (ValidString name) then false
  else if String.eqb name "." then true
  else forallb (fun elem => negb (String.eqb elem "" || String.eqb elem "." || String.eqb elem ".."))
               (elements name).

(** [hasMeta] of io/fs: the pattern holds one of the characters that
    [path.Match] reads as syntax. *)
Definition hasMeta (pattern : string) : bool :=
  existsb (fun c => Ascii.eqb c "*" || Ascii.eqb c "?" || Ascii.eqb c "[" || Ascii.eqb c "\")
          (list_ascii_of_string pattern).

Fixpoint strip_trailing_empty (es : list string) : list string :=
  match es with
  | [] => []
  | e :: es' =>
    match strip_trailing_empty es' with
    | [] => if String.eqb e "" then [] else [e]
    | l => e :: l
    end
  end.

(** [path.Base] *)
Definition Base (p : string) : string :=
  if String.eqb p "" then "."
  else
    match List.last (map Some (strip_trailing_empty (elements p))) None with
    | Some e => if String.eqb e "" then "/" else e
    | None => "/"
    end.

(** [subFS.shorten] *)
Definition shorten (dir name : string) : option string :=
  if String.eqb name dir then Some "."
  else if (String.length dir + 2 <=? String.length name)
          && (idx name (String.length dir) =? byteZ "/")%Z
          && String.eqb (take (String.length dir) name) dir
  then Some (drop (String.length dir + 1) name)
  else None.

(** [subFS.fixErr] *)
Definition fixErr (dir : string) (err : error) : error :=
  match err with
  | PathError op p e =>
    match shorten dir p with
    | Some short => PathError op short e
    | None => err
    end
  | _ => err
  end.

(** [subFS.fullName]: [path.Join] of two valid paths only puts a slash
    between them, and a [name] that is "." adds nothing. *)
Definition fullName (dir op name : string) : result string :=
  if negb (ValidPath name) then Err (PathError op name ErrInvalid)
  else if String.eqb name "." then Ok dir
  else Ok (dir ++ "/" ++ name)%string.

(** [dirFS.join] *)
Definition join (dir name : string) : result string :=
  if String.eqb dir "" then Err (errorString "os: DirFS with empty root")
  else if negb (ValidPath name) then Err ErrInvalid
  else if (idx dir (String.length dir - 1) =? byteZ "/")%Z then Ok (dir ++ name)%string
  else Ok (dir ++ "/" ++ name)%string.

(** [fs.Sub] *)
Definition Sub (fsys : FS) (dir : string) : result FS :=
  if negb (ValidPath dir) then Err (PathError "sub" dir ErrInvalid)
  else if String.eqb dir "." then Ok fsys
  else Ok (subFS fsys dir).

Section World.

(** The files on disk when the plugin runs. *)
Variable disk : tree.

(** What [fs.Stat] finds under [name]; [None] stands for any error. *)
Fixpoint Stat (fsys : FS) (name : string) : option node :=
  match fsys with
  | embedFS files =>
    if negb (ValidPath name) then None
    else if String.eqb name "." then Some Directory
    else files name
  | dirFS dir =>
    match join dir name with
    | Ok fullname => disk fullname
    | Err _ => None
    end
  | subFS fsys' dir =>
    match fullName dir "open" name with
    | Ok full => Stat fsys' full
    | Err _ => None
    end
  end.

(** [fs.ReadFile] *)
Fixpoint ReadFile (fsys : FS) (name : string) : result string :=
  match fsys with
  | embedFS files =>
    match Stat (embedFS files) name with
    | Some (RegularFile data) => Ok data
    | Some Directory => Err (PathError "read" name EISDIR)
    | None => Err (PathError "open" name ErrNotExist)
    end
  | dirFS dir =>
    match join dir name with
    | Err e => Err (PathError "readfile" name e)
    | Ok fullname =>
      match disk fullname with
      | Some (RegularFile data) => Ok data
      | Some Directory => Err (PathError "read" name EISDIR)
      | None => Err (PathError "open" name ENOENT)
      end
    end
  | subFS fsys' dir =>
    match fullName dir "read" name with
    | Err e => Err e
    | Ok full =>
      match ReadFile fsys' full with
      | Ok data => Ok data
      | Err e => Err (fixErr dir e)
      end
    end
  end.

(** The part of [path.Match] and of the wildcard search of [fs.Glob]
    that this development does not unfold: whether [path.Match] rejects
    a pattern with syntax characters as malformed, and the names such a
    pattern matches in a file system seen through its [Stat]. *)
Variable malformed : string -> bool.
Variable wildcard : (string -> option node) -> string -> result (list string).

Fixpoint shorten_all (dir : string) (names : list string) : result (list string) :=
  match names with
  | [] => Ok []
  | name :: rest =>
    match shorten dir name with
    | None => Err (errorString ("invalid result from inner fsys Glob: " ++ name ++ " not in " ++ dir))
    | Some short =>
      rest' <- shorten_all dir rest ;;
      Ok (short :: rest')
    end
  end.

(** [fs.Glob]: [subFS] has its own [Glob] method; the other file
    systems go through the generic search, which for a pattern without
    syntax characters is a [Stat] of that name. *)
Fixpoint Glob (fsys : FS) (pattern : string) : result (list string) :=
  match fsys with
  | subFS fsys' dir =>
    if hasMeta pattern && malformed pattern then Err ErrBadPattern
    else if String.eqb pattern "." then Ok ["."]
    else
      list <- Glob fsys' (dir ++ "/" ++ pattern)%string ;;
      shorten_all dir list
  | _ =>
    if negb (hasMeta pattern) then
      match Stat fsys pattern with
      | Some _ => Ok [pattern]
      | None => Ok []
      end
    else wildcard (Stat fsys) pattern
  end.

End World.

End fs.

(** ** The template resolver, the renderer and the driver *)

(** [strconv.CanBackquote] *)
Definition CanBackquote (s : string) : bool :=
  forallb (fun r =>
             if 1 <? String.length (raw r) then negb (code r =? 0xFEFF)%Z
             else negb ((code r =? utf8.RuneError)%Z
                        || ((code r <? byteZ SP)%Z && negb (code r =? byteZ TAB)%Z)
                        || (code r =? byteZ "`")%Z
                        || (code r =? 0x7F)%Z))
          (runes s).

(** What the driver reads of a [protogen.File]. *)
Record File : Type :=
  mkFile { File_Desc : Descriptor;
           Generate : bool;
           GeneratedFilenamePrefix : string;
           GoImportPath : string }.

Record GeneratedFile : Type :=
  mkGeneratedFile { filename : string; goImportPath : string; buf : string }.

(** The generated files a [protogen.Plugin] has registered so far. *)
Record Plugin : Type := mkPlugin { Files : list File; genFiles : list GeneratedFile }.

(** The response of the plugin to the compiler: the error alone when the
    run failed, the generated files otherwise. *)
Inductive Response : Type :=
| ResponseError (msg : string)
| ResponseFiles (files : list (string * string)).

(** [GenOpts] hold options for generation. *)
Record GenOpts : Type := mkGenOpts { Format : string; TemplateDir : string }.

(** The values of the flags when the compiler passes no parameter. *)
Definition default_GenOpts : GenOpts := mkGenOpts "markdown" "".

(** The name of the file generated for [file]. *)
Definition output_filename (o : GenOpts) (file : File) : string :=
  (GeneratedFilenamePrefix file ++ "." ++ Format o)%string.

Section Generator.

(** The files on disk and the embedded directory [templates]. *)
Variable disk : fs.tree.
Variable defaultTemplates : fs.tree.

(** The wildcard part of [path.Match] and [fs.Glob] (see [fs.Glob]) and
    the quoting of [strconv.Quote]. *)
Variable malformed : string -> bool.
Variable wildcard : (string -> option fs.node) -> string -> result (list string).
Variable strconv_Quote : string -> string.

(** The template engine of html/template: a set of named templates
    with the helper functions bound, [Parse] of a text into the set
    under a name, and [ExecuteTemplate], which gives the bytes written
    and the error that stopped the execution, if any. *)
Variable Template : Type.
Variable New : string -> Template.
Variable Parse : Template -> string -> string -> result Template.
Variable ExecuteTemplate : Template -> string -> File -> string * option error.

(** The verb [%#q] of fmt on a string. *)
Definition sharp_q (s : string) : string :=
  if CanBackquote s then ("`" ++ s ++ "`")%string else strconv_Quote s.

(** [parseFiles] of html/template over [readFileFS]. *)
Fixpoint parseFiles (t : Template) (fsys : fs.FS) (filenames : list string) : result Template :=
  match filenames with
  | [] => Ok t
  | file :: rest =>
    let name := fs.Base file in
    b <- fs.ReadFile disk fsys file ;;
    t' <- Parse t name b ;;
    parseFiles t' fsys rest
  end.

(** [Template.ParseFS] with one pattern. *)
Definition ParseFS (t : Template) (fsys : fs.FS) (pattern : string) : result Template :=
  list <- fs.Glob disk malformed wildcard fsys pattern ;;
  match list with
  | [] => Err (errorString ("template: pattern matches no files: " ++ sharp_q pattern))
  | _ => parseFiles t fsys list
  end.

Definition getTemplateFS (o : GenOpts) : result fs.FS :=
  if String.eqb (TemplateDir o) "" then
    fs.Sub (fs.embedFS defaultTemplates) "templates"
  else
    let tFS := fs.dirFS (TemplateDir o) in
    fs.Sub tFS (TemplateDir o).

(** [g.Write]: the bytes go to the end of the buffer of [g]. *)
Definition Write (g : GeneratedFile) (p : string) : GeneratedFile :=
  mkGeneratedFile (filename g) (goImportPath g) (buf g ++ p).

(** [renderTemplate] gives [g] after the writes of the template and the
    error. *)
Definition renderTemplate (o : GenOpts) (file : File) (g : GeneratedFile)
    : GeneratedFile * option error :=
  match getTemplateFS o with
  | Err err => (g, Some err)
  | Ok tFS =>
    let t := New "file.tpl" in
    match ParseFS t tFS (Sprint (Format o) ++ ".tpl") with
    | Err err => (g, Some err)
    | Ok t =>
      let (written, err) := ExecuteTemplate t "output" file in
      (Write g written, err)
    end
  end.

(** The three ways a rendering fails with [e]: the template source is
    not resolved, the template is not found or not parsed, the execution
    stops. *)
Definition render_fails (o : GenOpts) (file : File) (e : error) : Prop :=
  getTemplateFS o = Err e
  \/ (exists tFS, getTemplateFS o = Ok tFS
                  /\ ParseFS (New "file.tpl") tFS (Format o ++ ".tpl")%string = Err e)
  \/ (exists tFS t w, getTemplateFS o = Ok tFS
                      /\ ParseFS (New "file.tpl") tFS (Format o ++ ".tpl")%string = Ok t
                      /\ ExecuteTemplate t "output" file = (w, Some e)).

(** [gen.NewGeneratedFile] registers the new file with the plugin; [g]
    is a pointer to the registered file, so the plugin sees what the
    template writes to it. *)
Definition generateFile (o : GenOpts) (gen : Plugin) (file : File) : Plugin * option error :=
  let filename := (GeneratedFilenamePrefix file ++ "." ++ Format o)%string in
  let g := mkGeneratedFile filename (GoImportPath file) "" in
  let (g, err) := renderTemplate o file g in
  let gen := mkPlugin (Files gen) (genFiles gen ++ [g]) in
  match err with
  | Some err =>
    (gen, Some (wrapError ("issue generating " ++ Sprint filename ++ ": " ++ Error err) err))
  | None => (gen, None)
  end.

(** The loop of the function [main] hands to [opts.Run]. *)
Fixpoint generateFiles (o : GenOpts) (gen : Plugin) (files : list File) : Plugin * option error :=
  match files with
  | [] => (gen, None)
  | f :: rest =>
    if negb (Generate f) then generateFiles o gen rest
    else
      match generateFile o gen f with
      | (gen', Some err) => (gen', Some err)
      | (gen', None) => generateFiles o gen' rest
      end
  end.

(** [opts.Run]: an error of the function sets the error of the
    response, which then carries no file. *)
Definition main (o : GenOpts) (gen : Plugin) : Response :=
  match generateFiles o gen (Files gen) with
  | (_, Some err) => ResponseError (Error err)
  | (gen', None) => ResponseFiles (map (fun g => (filename g, buf g)) (genFiles gen'))
  end.

End Generator.

(** * Statements

    ** The helpers as the specification words them *)

(** The character class [[A-Za-z0-9_-]]. *)
Definition in_range (lo hi : ascii) (z : Z) : bool :=
  (byteZ lo <=? z)%Z && (z <=? byteZ hi)%Z.

Definition in_anchor_class (z : Z) : bool :=
  in_range "A" "Z" z || in_range "a" "z" z || in_range "0" "9" z
  || (z =? byteZ "_")%Z || (z =? byteZ "-")%Z.

(** The string matches [[A-Za-z0-9_-]*]. *)
Definition all_in_class (s : string) : bool :=
  forallb (fun c => in_anchor_class (byteZ c)) (list_ascii_of_string s).

Fixpoint map_bytes (f : ascii -> ascii) (s : string) : string :=
  match s with
  | "" => ""
  | String c t => String (f c) (map_bytes f t)
  end.

Fixpoint flatten (l : list string) : string :=
  match l with
  | [] => ""
  | x :: l' => (x ++ flatten l')%string
  end.

Definition slash_to_underscore (c : ascii) : ascii :=
  if Ascii.eqb c "/" then "_"%char else c.

(** A character outside the class becomes a dash; a character is a rune
    of the input. *)
Definition sanitize_rune (r : rune) : string :=
  if in_anchor_class (code r) then raw r else "-".

Definition sanitize (s : string) : string := flatten (map sanitize_rune (runes s)).

Definition is_linebreak (c : ascii) : bool := Ascii.eqb c LF || Ascii.eqb c CR.

Definition is_whitespace (c : ascii) : bool :=
  Ascii.eqb c TAB || Ascii.eqb c LF || Ascii.eqb c FF || Ascii.eqb c CR || Ascii.eqb c SP.

(** Split at every line break followed by any run of whitespace:
    [in_break] says that the scan is inside such a separator, [cur] is
    the segment read so far. *)
Fixpoint para_split (in_break : bool) (cur : string) (s : string) : list string :=
  match s with
  | "" => [cur]
  | String c t =>
    if in_break && is_whitespace c then para_split true cur t
    else if is_linebreak c then cur :: para_split true "" t
    else para_split false (cur ++ String c "") t
  end.

Definition no_linebreak (s : string) : bool :=
  forallb (fun c => negb (is_linebreak c)) (list_ascii_of_string s).

Definition all_whitespace (s : string) : bool :=
  forallb is_whitespace (list_ascii_of_string s).

Definition starts_with_whitespace (s : string) : bool :=
  match s with
  | String c _ => is_whitespace c
  | "" => false
  end.

(** [para_cut s segs]: the segments [segs] are what lies in [s] between
    its separators, a separator being a line break character and all the
    whitespace after it. *)
Inductive para_cut : string -> list string -> Prop :=
| para_cut_end seg : no_linebreak seg = true -> para_cut seg [seg]
| para_cut_at seg c w rest segs :
    no_linebreak seg = true ->
    is_linebreak c = true -> all_whitespace w = true ->
    starts_with_whitespace rest = false ->
    para_cut rest segs ->
    para_cut (seg ++ String c w ++ rest) (seg :: segs).

Definition wrap (op cl seg : string) : string := (op ++ seg ++ cl)%string.

(** [p] and [para] as the specification words them: split, wrap every
    segment, join with no separator. *)
Definition p_spec (s : string) : string :=
  flatten (map (wrap "<p>" "</p>") (para_split false "" s)).

Definition para_spec (s : string) : string :=
  flatten (map (wrap "<para>" "</para>") (para_split false "" s)).

(** Every CR LF becomes LF. *)
Fixpoint crlf_to_lf (s : string) : string :=
  match s with
  | "" => ""
  | String c t =>
    match t with
    | String d t' =>
      if Ascii.eqb c CR && Ascii.eqb d LF then String LF (crlf_to_lf t')
      else String c (crlf_to_lf t)
    | "" => String c ""
    end
  end.

Definition starts_with_linebreak (s : string) : bool :=
  match s with
  | String c _ => is_linebreak c
  | "" => false
  end.

(** Split at every run of two or more line break characters:
    [in_run] says that the scan is inside such a run, [cur] is the
    paragraph read so far. *)
Fixpoint run_split (in_run : bool) (cur : string) (s : string) : list string :=
  match s with
  | "" => [cur]
  | String c t =>
    if is_linebreak c then
      if in_run then run_split true cur t
      else if starts_with_linebreak t then cur :: run_split true "" t
      else run_split false (cur ++ String c "") t
    else run_split false (cur ++ String c "") t
  end.

Definition all_linebreak (s : string) : bool :=
  forallb is_linebreak (list_ascii_of_string s).

Fixpoint ends_with_linebreak (s : string) : bool :=
  match s with
  | "" => false
  | String c "" => is_linebreak c
  | String _ t => ends_with_linebreak t
  end.

(** No two line break characters next to each other. *)
Fixpoint no_run (s : string) : bool :=
  match s with
  | "" => true
  | String c t => negb (is_linebreak c && starts_with_linebreak t) && no_run t
  end.

(** [run_cut s ps]: the paragraphs [ps] are what lies in [s] between
    its runs of two or more line break characters. *)
Inductive run_cut : string -> list string -> Prop :=
| run_cut_end p : no_run p = true -> run_cut p [p]
| run_cut_at p r rest ps :
    no_run p = true -> ends_with_linebreak p = false ->
    all_linebreak r = true -> 2 <= String.length r ->
    starts_with_linebreak rest = false ->
    run_cut rest ps ->
    run_cut (p ++ r ++ rest) (p :: ps).

Definition break_to_space (c : ascii) : ascii := if is_linebreak c then SP else c.

(** One space for every run of spaces. *)
Fixpoint collapse_spaces (in_run : bool) (s : string) : string :=
  match s with
  | "" => ""
  | String c t =>
    if Ascii.eqb c SP then
      if in_run then collapse_spaces true t else String SP (collapse_spaces true t)
    else String c (collapse_spaces false t)
  end.

(** [nobr] as the specification words it: normalize, split into
    paragraphs, turn the line breaks left in a paragraph into spaces,
    collapse the runs of spaces, join with a blank line. *)
Definition nobr_spec (s : string) : string :=
  strings.Join
    (map (fun p => collapse_spaces false (map_bytes break_to_space p))
         (run_split false "" (crlf_to_lf s)))
    (String LF (String LF "")).

(** The characters [description] trims: star, slash, line feed, space. *)
Definition is_decoration (c : ascii) : bool :=
  Ascii.eqb c "*" || Ascii.eqb c "/" || Ascii.eqb c LF || Ascii.eqb c " ".

Fixpoint trim_decoration (s : string) : string :=
  match s with
  | "" => ""
  | String c t => if is_decoration c then trim_decoration t else s
  end.

Definition all_decoration (s : string) : bool :=
  forallb is_decoration (list_ascii_of_string s).

Definition starts_with_decoration (s : string) : bool :=
  match s with
  | String c _ => is_decoration c
  | "" => false
  end.

Definition has_grandparent (d : Descriptor) : bool :=
  match Parent d with
  | Some p => match Parent p with Some _ => true | None => false end
  | None => false
  end.

Definition parent_name (d : Descriptor) : string :=
  match Parent d with
  | Some p => Name p
  | None => ""
  end.

(** The number of ancestors of a node. *)
Fixpoint depth (d : Descriptor) : nat :=
  match d with
  | mkDescriptor _ _ (Some p) => S (depth p)
  | mkDescriptor _ _ None => 0
  end.

(** The message or enum a field refers to. *)
Definition referenced_type (f : Field) : option Descriptor :=
  match Field_Message f with
  | Some m => Some (Message_Desc m)
  | None =>
    match Field_Enum f with
    | Some e => Some (Enum_Desc e)
    | None => None
    end
  end.

(** ** Notions of the proofs *)

(** A decoded rune is an ASCII byte that stands for itself, or it has a
    code point from 0x80 on and is made of bytes from 0x80 on. *)
Inductive rune_ok : rune -> Prop :=
| ok_ascii c : (byteZ c < 0x80)%Z -> rune_ok (mkRune (byteZ c) (String c ""))
| ok_wide z w :
    (0x80 <= z)%Z -> w <> "" ->
    Forall (fun c => (0x80 <= byteZ c)%Z) (list_ascii_of_string w) ->
    rune_ok (mkRune z w).

Definition high_bytes (w : string) : Prop :=
  Forall (fun c => (0x80 <= byteZ c)%Z) (list_ascii_of_string w).

(** What [Split] computes for a pattern that matches no empty string:
    [skip] counts the runes of the current match still to be passed
    over, [cur] is the piece read so far. *)
Fixpoint split_scan (re : syntax) (skip : nat) (cur : string) (s : list rune) : list string :=
  match s with
  | [] => [cur]
  | r :: s' =>
    match skip with
    | S k => split_scan re k cur s'
    | O =>
      match matchPrefix re s with
      | Some (S n) => cur :: split_scan re n "" s'
      | _ => split_scan re 0 (cur ++ raw r) s'
      end
    end
  end.

(** What [ReplaceAllString] computes for such a pattern. *)
Fixpoint replace_scan (re : syntax) (repl : string) (skip : nat) (s : list rune) : string :=
  match s with
  | [] => ""
  | r :: s' =>
    match skip with
    | S k => replace_scan re repl k s'
    | O =>
      match matchPrefix re s with
      | Some (S n) => (repl ++ replace_scan re repl n s')%string
      | _ => (raw r ++ replace_scan re repl 0 s')%string
      end
    end
  end.

Definition never_empty (re : syntax) : Prop :=
  forall s, matchPrefix re s <> Some 0.

(** The successive leftmost matches in [s], whose first rune has
    position [off]. *)
Fixpoint matches_from (fuel : nat) (re : syntax) (s : list rune) (off : nat) : list (nat * nat) :=
  match fuel with
  | O => []
  | S f =>
    match search re s off with
    | None => []
    | Some (a, b) => (a, b) :: matches_from f re (skipn (b - off) s) b
    end
  end.

(** The length of the longest prefix of runes that pass [p]. *)
Fixpoint span (p : rune -> bool) (s : list rune) : nat :=
  match s with
  | r :: s' => if p r then S (span p s') else 0
  | [] => 0
  end.

(** A pattern that is a test of one rune. *)
Definition one_rune (a : syntax) (p : rune -> bool) : Prop :=
  forall (A : Type) (s : list rune) (k : list rune -> option A),
    backtrack a s k =
    match s with
    | r :: s' => if p r then k s' else None
    | [] => None
    end.

Definition is_code (z : Z) (r : rune) : bool := (code r =? z)%Z.

(** A continuation that accepts every rest of the input. *)
Definition total {A : Type} (k : list rune -> option A) : Prop :=
  forall rest, k rest <> None.

Definition is_lb (r : rune) : bool := (code r =? 10)%Z || (code r =? 13)%Z.

Definition is_ws (r : rune) : bool :=
  class_matches false [rng TAB LF; rng FF CR; rng SP SP] r.

Definition is_sp (r : rune) : bool := (code r =? 32)%Z.

Definition is_special (r : rune) : bool :=
  class_matches true [rng "a" "z"; rng "A" "Z"; rng "0" "9"; rng "_" "_"; rng "-" "-"] r.

(** ** Sample inputs of the statements *)

(** Three patterns of the examples of the regexp documentation. *)
Definition e_a : Regexp := MustCompile' "a" (Lit "a").
Definition e_zplus : Regexp := MustCompile' "z+" (Plus (Lit "z")).
Definition e_axb : Regexp :=
  MustCompile' "a(x*)b" (Concat (Lit "a") (Concat (Star (Lit "x")) (Lit "b"))).

Definition e_description : string := ("  hello world  " ++ String LF "")%string.

Definition e_p_input : string :=
  ("a" ++ String LF "b" ++ String LF (String LF "c"))%string.

Definition e_nobr_input : string :=
  ("line one" ++ String LF "line two" ++ String LF (String LF "second para"))%string.

Definition e_nobr_output : string :=
  ("line one line two" ++ String LF (String LF "second para"))%string.

(** A file [user.proto] with a message [User], its field [id], the
    message [Address] nested in [User] and a field of that type. *)
Definition e_file : Descriptor := mkDescriptor "user.proto" "example" None.
Definition e_User : Descriptor := mkDescriptor "User" "example.User" (Some e_file).
Definition e_id : Descriptor := mkDescriptor "id" "example.User.id" (Some e_User).
Definition e_Address : Descriptor := mkDescriptor "Address" "example.User.Address" (Some e_User).

Definition e_address_field : Field :=
  mkField (mkFieldDescriptor (mkDescriptor "address" "example.User.address" (Some e_User)) MessageKind)
          (Some (mkMessage e_Address)) None.

(** A disk with the template directly in the directory [tpl], and one
    with the template in [tpl/tpl]. *)
Definition disk_direct : fs.tree :=
  fun name => if String.eqb name "tpl/markdown.tpl" then Some (fs.RegularFile "direct") else None.

Definition disk_nested : fs.tree :=
  fun name => if String.eqb name "tpl/tpl/markdown.tpl" then Some (fs.RegularFile "nested") else None.

Definition override_opts : GenOpts := mkGenOpts "markdown" "tpl".

(** A template engine small enough to run: a template set is the list of
    the parsed texts, and executing writes the text of the first one. *)
Definition sample_Template : Type := list (string * string).

Definition sample_New (name : string) : sample_Template := [].

Definition sample_Parse (t : sample_Template) (name text : string) : result sample_Template :=
  Ok (t ++ [(name, text)]).

Definition sample_Execute (t : sample_Template) (block : string) (file : File)
    : string * option error :=
  match t with
  | (_, text) :: _ => (text, None)
  | [] => ("", Some (errorString ("html/template: " ++ block ++ " is undefined")))
  end.

Definition no_wildcard (stat : string -> option fs.node) (pattern : string)
    : result (list string) := Ok [].

Definition e_first : File := mkFile e_file true "first" "example".
Definition e_second : File := mkFile e_file true "second" "example".
Definition e_plugin : Plugin := mkPlugin [e_first; e_second] [].

(** ** Notions of the further properties *)

Definition starts_with_space (s : string) : bool :=
  match s with
  | String c _ => Ascii.eqb c SP
  | "" => false
  end.

(** No two spaces next to each other. *)
Fixpoint no_double_space (s : string) : bool :=
  match s with
  | "" => true
  | String c t => negb (Ascii.eqb c SP && starts_with_space t) && no_double_space t
  end.

(** No carriage return. *)
Definition no_cr (s : string) : bool :=
  forallb (fun c => negb (Ascii.eqb c CR)) (list_ascii_of_string s).

(** Paragraphs that [strings.Join] with a blank line keeps apart: only
    the first and the last may be empty. *)
Inductive separable : list string -> Prop :=
| separable_one q : separable [q]
| separable_cons q q' qs :
    (qs <> [] -> q' <> "") -> separable (q' :: qs) -> separable (q :: q' :: qs).

Definition blank_line : string := String LF (String LF "").

Definition reflow_paragraph (p : string) : string :=
  collapse_spaces false (map_bytes break_to_space p).

(** The name of the template of a format. *)
Definition template_name (o : GenOpts) : string := (Format o ++ ".tpl")%string.

(** What a successful run registers for [file]. *)
Definition generated
    {Template : Type} (ExecuteTemplate : Template -> string -> File -> string * option error)
    (o : GenOpts) (t : Template) (file : File) : GeneratedFile :=
  mkGeneratedFile (output_filename o file) (GoImportPath file)
                  (fst (ExecuteTemplate t "output" file)).

(** ** Sample inputs of the further properties *)

(** A scalar field, the embedded directory with the template of the
    format [markdown], a working directory with that template, and a
    request with a file that is only imported. *)
Definition e_id_field : Field :=
  mkField (mkFieldDescriptor e_id StringKind) None None.

Definition embedded_markdown : fs.tree :=
  fun name =>
    if String.eqb name "templates/markdown.tpl" then Some (fs.RegularFile "# API") else None.


Definition e_imported : File := mkFile e_file false "imported" "example".

Definition e_request : Plugin := mkPlugin [e_first; e_imported; e_second] [].

(** * Proofs

    ** Strings and the UTF-8 decoder *)

Import utf8.

Lemma sapp_nil_r (s : string) : (s ++ "")%string = s.
Proof. induction s; simpl; congruence. Qed.

Lemma sapp_assoc (a b c : string) : ((a ++ b) ++ c)%string = (a ++ b ++ c)%string.
Proof. induction a; simpl; congruence. Qed.

Lemma slength_app (a b : string) : String.length (a ++ b) = String.length a + String.length b.
Proof. induction a; simpl; auto. Qed.

Lemma take_drop n s : (take n s ++ drop n s)%string = s.
Proof. revert s; induction n; intros [|c t]; simpl; auto. now rewrite IHn. Qed.

Lemma land_upper a b : (0 <= a -> 0 <= b -> Z.land a b <= b)%Z.
Proof.
  intros Ha Hb. destruct a as [|p|p], b as [|q|q]; simpl; try lia.
  pose proof (N.land_le_r (N.pos p) (N.pos q)) as H. simpl in H.
  destruct (Pos.land p q); simpl; lia.
Qed.

Lemma lor_lower a b : (0 <= a -> 0 <= b -> a <= Z.lor a b /\ b <= Z.lor a b)%Z.
Proof.
  intros Ha Hb.
  pose proof (Z.add_lor_land a b) as H.
  pose proof (land_upper a b Ha Hb).
  pose proof (land_upper b a Hb Ha) as H1. rewrite Z.land_comm in H1.
  lia.
Qed.

Lemma first_inv s0 sz lo hi :
  first s0 = Some (sz, lo, hi) ->
  (sz = 2 /\ (0xC2 <= s0 <= 0xDF /\ lo = 0x80 /\ hi = 0xBF)%Z) \/
  (sz = 3 /\ (0xE0 <= s0 <= 0xEF /\ 0x80 <= lo /\ hi <= 0xBF /\ (s0 = 0xE0 -> lo = 0xA0))%Z) \/
  (sz = 4 /\ (0xF0 <= s0 <= 0xF4 /\ 0x80 <= lo /\ hi <= 0xBF /\ (s0 = 0xF0 -> lo = 0x90))%Z).
Proof.
  unfold first, locb, hicb.
  repeat match goal with
         | |- context [if ?b then _ else _] => destruct b eqn:?
         end; intros H; inversion H; subst; clear H;
    repeat match goal with
           | H : (_ <? _)%Z = _ |- _ => apply Z.ltb_lt in H || apply Z.ltb_ge in H
           | H : (_ <=? _)%Z = _ |- _ => apply Z.leb_le in H || apply Z.leb_gt in H
           | H : (_ =? _)%Z = _ |- _ => apply Z.eqb_eq in H || apply Z.eqb_neq in H
           end; lia.
Qed.

Lemma byteZ_range c : (0 <= byteZ c < 256)%Z.
Proof.
  unfold byteZ. pose proof (N_ascii_bounded c). lia.
Qed.

Lemma mask_mod x : (Z.land x maskx = x mod 64 /\ Z.land x mask2 = x mod 32
                    /\ Z.land x mask3 = x mod 16 /\ Z.land x mask4 = x mod 8)%Z.
Proof.
  repeat split.
  - change maskx with (Z.ones 6). now rewrite Z.land_ones by lia.
  - change mask2 with (Z.ones 5). now rewrite Z.land_ones by lia.
  - change mask3 with (Z.ones 4). now rewrite Z.land_ones by lia.
  - change mask4 with (Z.ones 3). now rewrite Z.land_ones by lia.
Qed.

Lemma code2_high s0 s1 :
  (0xC2 <= s0 <= 0xDF -> 0 <= s1 ->
   0x80 <= Z.lor (Z.shiftl (Z.land s0 mask2) 6) (Z.land s1 maskx))%Z.
Proof.
  intros H0 H1.
  destruct (mask_mod s0) as (_ & -> & _). destruct (mask_mod s1) as (-> & _).
  rewrite Z.shiftl_mul_pow2 by lia.
  assert (0 <= s1 mod 64)%Z by (apply Z.mod_pos_bound; lia).
  assert (2 <= s0 mod 32)%Z by (Z.div_mod_to_equations; lia).
  pose proof (lor_lower (s0 mod 32 * 2 ^ 6) (s1 mod 64)). lia.
Qed.

Lemma code3_high s0 s1 s2 lo :
  (0xE0 <= s0 <= 0xEF -> (s0 = 0xE0 -> lo = 0xA0) -> 0x80 <= lo -> lo <= s1 <= 0xBF -> 0 <= s2 ->
   0x80 <= Z.lor (Z.lor (Z.shiftl (Z.land s0 mask3) 12) (Z.shiftl (Z.land s1 maskx) 6))
                 (Z.land s2 maskx))%Z.
Proof.
  intros H0 Hlo Hl H1 H2.
  destruct (mask_mod s0) as (_ & _ & -> & _). destruct (mask_mod s1) as (-> & _).
  destruct (mask_mod s2) as (-> & _).
  rewrite !Z.shiftl_mul_pow2 by lia.
  assert (0 <= s2 mod 64)%Z by (apply Z.mod_pos_bound; lia).
  assert (0 <= s1 mod 64)%Z by (apply Z.mod_pos_bound; lia).
  assert (0 <= s0 mod 16)%Z by (apply Z.mod_pos_bound; lia).
  assert (1 <= s0 mod 16 \/ 32 <= s1 mod 64)%Z by (Z.div_mod_to_equations; lia).
  pose proof (lor_lower (s0 mod 16 * 2 ^ 12) (s1 mod 64 * 2 ^ 6)).
  pose proof (lor_lower (Z.lor (s0 mod 16 * 2 ^ 12) (s1 mod 64 * 2 ^ 6)) (s2 mod 64)).
  lia.
Qed.

Lemma code4_high s0 s1 s2 s3 lo :
  (0xF0 <= s0 <= 0xF4 -> (s0 = 0xF0 -> lo = 0x90) -> 0x80 <= lo -> lo <= s1 <= 0xBF ->
   0 <= s2 -> 0 <= s3 ->
   0x80 <= Z.lor (Z.lor (Z.lor (Z.shiftl (Z.land s0 mask4) 18) (Z.shiftl (Z.land s1 maskx) 12))
                        (Z.shiftl (Z.land s2 maskx) 6))
                 (Z.land s3 maskx))%Z.
Proof.
  intros H0 Hlo Hl H1 H2 H3.
  destruct (mask_mod s0) as (_ & _ & _ & ->). destruct (mask_mod s1) as (-> & _).
  destruct (mask_mod s2) as (-> & _). destruct (mask_mod s3) as (-> & _).
  rewrite !Z.shiftl_mul_pow2 by lia.
  assert (0 <= s3 mod 64)%Z by (apply Z.mod_pos_bound; lia).
  assert (0 <= s2 mod 64)%Z by (apply Z.mod_pos_bound; lia).
  assert (0 <= s1 mod 64)%Z by (apply Z.mod_pos_bound; lia).
  assert (0 <= s0 mod 8)%Z by (apply Z.mod_pos_bound; lia).
  assert (1 <= s0 mod 8 \/ 16 <= s1 mod 64)%Z by (Z.div_mod_to_equations; lia).
  pose proof (lor_lower (s0 mod 8 * 2 ^ 18) (s1 mod 64 * 2 ^ 12)).
  pose proof (lor_lower (Z.lor (s0 mod 8 * 2 ^ 18) (s1 mod 64 * 2 ^ 12)) (s2 mod 64 * 2 ^ 6)).
  pose proof (lor_lower (Z.lor (Z.lor (s0 mod 8 * 2 ^ 18) (s1 mod 64 * 2 ^ 12)) (s2 mod 64 * 2 ^ 6)) (s3 mod 64)).
  lia.
Qed.

Ltac zify_tests :=
  repeat match goal with
         | H : (_ <? _)%Z = true |- _ => apply Z.ltb_lt in H
         | H : (_ <? _)%Z = false |- _ => apply Z.ltb_ge in H
         | H : (_ <=? _)%Z = true |- _ => apply Z.leb_le in H
         | H : (_ <=? _)%Z = false |- _ => apply Z.leb_gt in H
         | H : (_ =? _)%Z = true |- _ => apply Z.eqb_eq in H
         | H : (_ =? _)%Z = false |- _ => apply Z.eqb_neq in H
         | H : (_ <? _) = true |- _ => apply Nat.ltb_lt in H
         | H : (_ <? _) = false |- _ => apply Nat.ltb_ge in H
         | H : (_ <=? _) = true |- _ => apply Nat.leb_le in H
         | H : (_ <=? _) = false |- _ => apply Nat.leb_gt in H
         | H : (_ =? _) = true |- _ => apply Nat.eqb_eq in H
         | H : (_ =? _) = false |- _ => apply Nat.eqb_neq in H
         | H : (_ || _)%bool = false |- _ => apply orb_false_elim in H; destruct H
         | H : (_ && _)%bool = true |- _ => apply andb_prop in H; destruct H
         end.

Lemma Decode_ok c t :
  let s := String c t in
  1 <= snd (DecodeRuneInString s) <= String.length s /\
  rune_ok (mkRune (fst (DecodeRuneInString s)) (take (snd (DecodeRuneInString s)) s)).
Proof.
  intros s. subst s. unfold DecodeRuneInString.
  change (String.length (String c t) <? 1) with false. cbv iota.
  change (idx (String c t) 0) with (byteZ c).
  pose proof (byteZ_range c) as Hc.
  destruct (byteZ c <? RuneSelf)%Z eqn:Hself; unfold RuneSelf in *; zify_tests.
  { simpl. split; [lia|]. now constructor. }
  assert (Hw1 : rune_ok (mkRune RuneError (take 1 (String c t)))).
  { simpl. apply ok_wide; [unfold RuneError; lia | discriminate | repeat constructor; lia]. }
  destruct (first (byteZ c)) as [[[sz lo] hi]|] eqn:Hf.
  2:{ simpl fst; simpl snd. split; [simpl; lia | exact Hw1]. }
  apply first_inv in Hf.
  destruct (String.length (String c t) <? sz) eqn:Hn.
  { simpl fst; simpl snd. split; [simpl; lia | exact Hw1]. }
  zify_tests.
  destruct t as [|c1 t1]; [simpl in Hn; lia|].
  change (idx (String c (String c1 t1)) 1) with (byteZ c1).
  pose proof (byteZ_range c1) as Hc1.
  destruct ((byteZ c1 <? lo) || (hi <? byteZ c1))%Z eqn:H1.
  { simpl fst; simpl snd. split; [simpl; lia | exact Hw1]. }
  zify_tests.
  destruct (sz <=? 2) eqn:Hs2; zify_tests.
  { simpl fst; simpl snd. split; [simpl; lia|].
    simpl take. apply ok_wide.
    - apply code2_high; lia.
    - discriminate.
    - repeat constructor; lia. }
  destruct t1 as [|c2 t2]; [simpl in Hn; lia|].
  change (idx (String c (String c1 (String c2 t2))) 2) with (byteZ c2).
  pose proof (byteZ_range c2) as Hc2.
  destruct ((byteZ c2 <? locb) || (hicb <? byteZ c2))%Z eqn:H2.
  { simpl fst; simpl snd. split; [simpl; lia | exact Hw1]. }
  zify_tests; unfold locb, hicb in * |-.
  destruct (sz <=? 3) eqn:Hs3; zify_tests.
  { simpl fst; simpl snd. split; [simpl; lia|].
    simpl take. apply ok_wide.
    - apply code3_high with (lo := lo); lia.
    - discriminate.
    - repeat constructor; lia. }
  destruct t2 as [|c3 t3]; [simpl in Hn; lia|].
  change (idx (String c (String c1 (String c2 (String c3 t3)))) 3) with (byteZ c3).
  pose proof (byteZ_range c3) as Hc3.
  destruct ((byteZ c3 <? locb) || (hicb <? byteZ c3))%Z eqn:H3.
  { simpl fst; simpl snd. split; [simpl; lia | exact Hw1]. }
  zify_tests; unfold locb, hicb in * |-.
  simpl fst; simpl snd. split; [simpl; lia|].
  simpl take. apply ok_wide.
  - apply code4_high with (lo := lo); lia.
  - discriminate.
  - repeat constructor; lia.
Qed.

Lemma bytes_runes_from skip s : bytes (runes_from skip s) = drop skip s.
Proof.
  revert skip. induction s as [|c t IH]; intros skip.
  - destruct skip; reflexivity.
  - destruct skip as [|k].
    + simpl runes_from.
      destruct (Decode_ok c t) as [Hw _].
      destruct (DecodeRuneInString (String c t)) as [r w]. simpl snd in Hw.
      simpl bytes. rewrite IH.
      destruct w as [|w']; [lia|].
      simpl. rewrite Nat.sub_0_r. f_equal. apply take_drop.
    + simpl. apply IH.
Qed.

Lemma bytes_runes s : bytes (runes s) = s.
Proof. unfold runes. now rewrite bytes_runes_from. Qed.

Lemma runes_from_ok skip s : Forall rune_ok (runes_from skip s).
Proof.
  revert skip. induction s as [|c t IH]; intros skip.
  - destruct skip; constructor.
  - destruct skip as [|k].
    + simpl runes_from.
      destruct (Decode_ok c t) as [_ Hok].
      destruct (DecodeRuneInString (String c t)) as [r w]. simpl in Hok.
      constructor; [exact Hok | apply IH].
    + simpl. apply IH.
Qed.

Lemma runes_ok s : Forall rune_ok (runes s).
Proof. apply runes_from_ok. Qed.

(** ** The loops of [Split] and [ReplaceAllString] *)

Lemma bytes_app a b : bytes (a ++ b) = (bytes a ++ bytes b)%string.
Proof. induction a; simpl; [reflexivity|]. now rewrite IHa, sapp_assoc. Qed.

Lemma slice_same s a : slice s a a = "".
Proof. unfold slice. now rewrite Nat.sub_diag. Qed.

Lemma slice_to_end s a : slice s a (List.length s) = bytes (skipn a s).
Proof.
  unfold slice. rewrite firstn_all2; [reflexivity|]. rewrite length_skipn. lia.
Qed.

Lemma slice_split s a b c :
  a <= b <= c -> slice s a c = (slice s a b ++ slice s b c)%string.
Proof.
  intros H. unfold slice.
  replace (c - a) with ((b - a) + (c - b)) by lia.
  rewrite <- bytes_app. f_equal.
  rewrite <- (firstn_skipn (b - a) (firstn (b - a + (c - b)) (skipn a s))).
  f_equal.
  - rewrite firstn_firstn. f_equal. lia.
  - rewrite skipn_firstn_comm. rewrite skipn_skipn. f_equal; [lia|]. f_equal. lia.
Qed.

Lemma star_loop_from_k {A : Type} (P : A -> Prop)
    (body : list rune -> (list rune -> option A) -> option A) :
  (forall s k, (forall rest x, k rest = Some x -> P x) ->
               forall x, body s k = Some x -> P x) ->
  forall fuel s k, (forall rest x, k rest = Some x -> P x) ->
                   forall x, star_loop body fuel s k = Some x -> P x.
Proof.
  intros Hbody fuel. induction fuel as [|f IH]; intros s k Hk x H; simpl in H.
  - eauto.
  - destruct (body s _) eqn:Hb.
    + inversion H; subst. eapply Hbody; [|exact Hb].
      intros rest y Hy. cbv beta in Hy.
      destruct (_ <? _); [|discriminate]. eapply IH; eauto.
    + eauto.
Qed.

(** Whatever a backtracking match returns, its continuation returned. *)
Lemma backtrack_from_k {A : Type} (P : A -> Prop) re :
  forall s k, (forall rest x, k rest = Some x -> P x) ->
              forall x, @backtrack A re s k = Some x -> P x.
Proof.
  induction re; intros s k Hk x H; simpl in H.
  - destruct s as [|r s']; [discriminate|]. destruct (_ =? _)%Z; [eauto|discriminate].
  - destruct s as [|r s']; [discriminate|]. destruct (class_matches _ _ _); [eauto|discriminate].
  - eapply IHre1; [|exact H]. intros rest y Hy. cbv beta in Hy.
    eapply IHre2; [exact Hk|exact Hy].
  - destruct (backtrack re1 s k) eqn:H1.
    + inversion H; subst. eauto.
    + eauto.
  - eapply star_loop_from_k; [|exact Hk|exact H]. exact IHre.
  - eapply IHre; [|exact H]. intros rest y Hy. cbv beta in Hy.
    eapply star_loop_from_k; [|exact Hk|exact Hy]. exact IHre.
  - eapply IHre; [|exact H]. intros rest y Hy. cbv beta in Hy.
    eapply IHre; [|exact Hy]. intros rest' y' Hy'. cbv beta in Hy'.
    eapply star_loop_from_k; [|exact Hk|exact Hy']. exact IHre.
Qed.

Lemma matchPrefix_le re s n : matchPrefix re s = Some n -> n <= List.length s.
Proof.
  unfold matchPrefix. intros H.
  eapply (backtrack_from_k (fun n => n <= List.length s)); [|exact H].
  intros rest x Hx. inversion Hx. lia.
Qed.

Lemma search_bounds re s off a b :
  never_empty re ->
  search re s off = Some (a, b) ->
  off <= a /\ a < b /\ b <= off + List.length s.
Proof.
  intros NE. revert off. induction s as [|r s' IH]; intros off H; simpl in H.
  - destruct (matchPrefix re []) as [n|] eqn:Hm; [|discriminate].
    apply matchPrefix_le in Hm as Hle. simpl in Hle.
    assert (n = 0) by lia. subst. now apply NE in Hm.
  - destruct (matchPrefix re (r :: s')) as [n|] eqn:Hm.
    + inversion H; subst. apply matchPrefix_le in Hm as Hle. simpl in Hle.
      destruct n; [now apply NE in Hm|]. simpl. lia.
    + apply IH in H. simpl. lia.
Qed.

Lemma split_scan_skip re k cur s :
  split_scan re k cur s = split_scan re 0 cur (skipn k s).
Proof.
  revert s. induction k as [|k IH]; intros s; [reflexivity|].
  destruct s as [|r s']; [reflexivity|]. simpl skipn. simpl split_scan at 1. apply IH.
Qed.

Lemma replace_scan_skip re repl k s :
  replace_scan re repl k s = replace_scan re repl 0 (skipn k s).
Proof.
  revert s. induction k as [|k IH]; intros s; [reflexivity|].
  destruct s as [|r s']; [reflexivity|]. simpl skipn. simpl replace_scan at 1. apply IH.
Qed.

Lemma split_scan_search re cur s off :
  never_empty re ->
  match search re s off with
  | None => split_scan re 0 cur s = [(cur ++ bytes s)%string]
  | Some (a, b) =>
    split_scan re 0 cur s =
    (cur ++ bytes (firstn (a - off) s))%string :: split_scan re 0 "" (skipn (b - off) s)
  end.
Proof.
  intros NE. revert cur off. induction s as [|r s' IH]; intros cur off.
  - simpl. destruct (matchPrefix re []) as [n|] eqn:Hm.
    + apply matchPrefix_le in Hm as Hle. simpl in Hle.
      assert (n = 0) by lia. subst. now apply NE in Hm.
    + now rewrite sapp_nil_r.
  - simpl search. simpl split_scan.
    destruct (matchPrefix re (r :: s')) as [n|] eqn:Hm.
    + destruct n as [|n]; [now apply NE in Hm|].
      rewrite Nat.sub_diag. simpl firstn. simpl bytes. rewrite sapp_nil_r.
      replace (off + S n - off) with (S n) by lia. simpl skipn.
      now rewrite split_scan_skip.
    + specialize (IH (cur ++ raw r)%string (S off)).
      destruct (search re s' (S off)) as [[a b]|] eqn:Hs.
      * apply search_bounds in Hs; [|exact NE].
        rewrite IH.
        replace (a - off) with (S (a - S off)) by lia.
        replace (b - off) with (S (b - S off)) by lia.
        simpl. now rewrite sapp_assoc.
      * rewrite IH. simpl. now rewrite sapp_assoc.
Qed.

Lemma replace_scan_search re repl s off :
  never_empty re ->
  match search re s off with
  | None => replace_scan re repl 0 s = bytes s
  | Some (a, b) =>
    replace_scan re repl 0 s =
    (bytes (firstn (a - off) s) ++ repl ++ replace_scan re repl 0 (skipn (b - off) s))%string
  end.
Proof.
  intros NE. revert off. induction s as [|r s' IH]; intros off.
  - simpl. destruct (matchPrefix re []) as [n|] eqn:Hm.
    + apply matchPrefix_le in Hm as Hle. simpl in Hle.
      assert (n = 0) by lia. subst. now apply NE in Hm.
    + reflexivity.
  - simpl search. simpl replace_scan.
    destruct (matchPrefix re (r :: s')) as [n|] eqn:Hm.
    + destruct n as [|n]; [now apply NE in Hm|].
      rewrite Nat.sub_diag. simpl firstn. simpl bytes.
      replace (off + S n - off) with (S n) by lia. simpl skipn.
      now rewrite replace_scan_skip.
    + specialize (IH (S off)).
      destruct (search re s' (S off)) as [[a b]|] eqn:Hs.
      * apply search_bounds in Hs; [|exact NE].
        rewrite IH.
        replace (a - off) with (S (a - S off)) by lia.
        replace (b - off) with (S (b - S off)) by lia.
        simpl. now rewrite sapp_assoc.
      * rewrite IH. reflexivity.
Qed.

Lemma allMatches_loop_matches_from re s0 fuel pos prev :
  never_empty (prog re) -> pos <= List.length s0 ->
  allMatches_loop fuel re s0 pos prev = matches_from fuel (prog re) (skipn pos s0) pos.
Proof.
  intros NE. revert pos prev. induction fuel as [|f IH]; intros pos prev Hpos; [reflexivity|].
  simpl. destruct (List.length s0 <? pos) eqn:Hlt; [apply Nat.ltb_lt in Hlt; lia|].
  unfold doExecute.
  destruct (search (prog re) (skipn pos s0) pos) as [[m0 m1]|] eqn:Hs; [|reflexivity].
  apply search_bounds in Hs; [|exact NE]. rewrite length_skipn in Hs.
  destruct (m1 =? pos) eqn:He; [apply Nat.eqb_eq in He; lia|].
  simpl. f_equal. rewrite IH by lia. f_equal.
  rewrite skipn_skipn. f_equal. lia.
Qed.

Lemma Split_loop_scan re s0 :
  never_empty re ->
  forall fuel off beg0 end0 acc,
    beg0 <= off <= List.length s0 -> end0 < List.length s0 ->
    List.length s0 - off < fuel ->
    (let '(strs, beg, end_) :=
       Split_loop s0 (matches_from fuel re (skipn off s0) off) beg0 end0 acc in
     if negb (end_ =? List.length s0) then strs ++ [slice s0 beg (List.length s0)]
     else strs)
    = acc ++ split_scan re 0 (slice s0 beg0 off) (skipn off s0).
Proof.
  intros NE fuel. induction fuel as [|f IH]; intros off beg0 end0 acc Hoff Hend Hfuel; [lia|].
  simpl matches_from.
  pose proof (split_scan_search re (slice s0 beg0 off) (skipn off s0) off NE) as Hscan.
  destruct (search re (skipn off s0) off) as [[a b]|] eqn:Hs.
  - apply search_bounds in Hs; [|exact NE]. rewrite length_skipn in Hs.
    simpl Split_loop.
    destruct (b =? 0) eqn:Hb0; [apply Nat.eqb_eq in Hb0; lia|]. simpl negb. cbv iota.
    rewrite skipn_skipn. replace (b - off + off) with b by lia.
    specialize (IH b b a (acc ++ [slice s0 beg0 a])).
    rewrite IH by lia.
    rewrite Hscan. rewrite slice_same.
    rewrite skipn_skipn. replace (b - off + off) with b by lia.
    rewrite <- List.app_assoc. simpl. do 2 f_equal.
    rewrite (slice_split s0 beg0 off a) by lia. reflexivity.
  - simpl Split_loop. cbv beta iota.
    destruct (end0 =? List.length s0) eqn:He; [apply Nat.eqb_eq in He; lia|]. simpl negb. cbv iota.
    rewrite Hscan. do 2 f_equal.
    rewrite (slice_split s0 beg0 off (List.length s0)) by lia.
    now rewrite slice_to_end.
Qed.

Lemma runes_nil s : runes s = [] -> s = "".
Proof. intros H. rewrite <- (bytes_runes s), H. reflexivity. Qed.

(** [Split] is the scanner when the pattern matches no empty string. *)
Lemma Split_scan re str :
  never_empty (prog re) -> expr re <> "" ->
  Split re str = split_scan (prog re) 0 "" (runes str).
Proof.
  intros NE Hexpr. unfold Split.
  destruct (0 <? String.length (expr re)) eqn:Hl.
  2:{ apply Nat.ltb_ge in Hl. destruct (expr re); [congruence|simpl in Hl; lia]. }
  destruct (String.length str =? 0) eqn:Hs.
  { apply Nat.eqb_eq in Hs. destruct str; [reflexivity|discriminate]. }
  simpl andb. cbv iota.
  assert (Hne : 0 < List.length (runes str)).
  { destruct (runes str) eqn:Hr; [|simpl; lia].
    apply runes_nil in Hr. subst. discriminate. }
  unfold FindAllStringIndex.
  rewrite allMatches_loop_matches_from by (auto; lia).
  pose proof (Split_loop_scan (prog re) (runes str) NE (List.length (runes str) + 2) 0 0 0 []) as H.
  simpl skipn in *. rewrite slice_same in H.
  destruct (Split_loop _ _ _ _ _) as [[strs beg] end_].
  rewrite H by lia. reflexivity.
Qed.

Lemma replaceAll_loop_scan re src repl :
  never_empty (prog re) ->
  forall fuel pos buf,
    pos <= List.length src -> List.length src - pos < fuel ->
    (let (buf', lme) := replaceAll_loop fuel re src repl pos pos buf in
     (buf' ++ slice src lme (List.length src))%string)
    = (buf ++ replace_scan (prog re) repl 0 (skipn pos src))%string.
Proof.
  intros NE fuel. induction fuel as [|f IH]; intros pos buf Hpos Hfuel; [lia|].
  simpl replaceAll_loop.
  destruct (List.length src <? pos) eqn:Hlt; [apply Nat.ltb_lt in Hlt; lia|].
  unfold doExecute.
  pose proof (replace_scan_search (prog re) repl (skipn pos src) pos NE) as Hscan.
  destruct (search (prog re) (skipn pos src) pos) as [[a0 a1]|] eqn:Hs.
  - apply search_bounds in Hs; [|exact NE]. rewrite length_skipn in Hs.
    destruct (pos <? a1) eqn:H1; [|apply Nat.ltb_ge in H1; lia]. simpl orb. cbv iota.
    assert (H2 : (a1 <? pos + (if pos <? List.length src then 1 else 0)) = false).
    { apply Nat.ltb_ge. destruct (pos <? List.length src); lia. }
    rewrite H2.
    destruct (a1 <? pos + 1) eqn:H3; [apply Nat.ltb_lt in H3; lia|].
    rewrite IH by lia. rewrite Hscan.
    rewrite skipn_skipn. replace (a1 - pos + pos) with a1 by lia.
    rewrite !sapp_assoc. reflexivity.
  - rewrite Hscan. now rewrite slice_to_end.
Qed.

(** [ReplaceAllString] is the scanner when the pattern matches no empty
    string. *)
Lemma ReplaceAllString_scan re src repl :
  never_empty (prog re) ->
  ReplaceAllString re src repl = replace_scan (prog re) repl 0 (runes src).
Proof.
  intros NE. unfold ReplaceAllString.
  pose proof (replaceAll_loop_scan re (runes src) repl NE (List.length (runes src) + 2) 0 "") as H.
  destruct (replaceAll_loop _ _ _ _ _ _ _) as [buf lme].
  rewrite H by lia. reflexivity.
Qed.

(** ** The loops on the examples of the regexp documentation *)

Example Split_banana : Split e_a "banana" = ["b"; "n"; "n"; ""].
Proof. reflexivity. Qed.

Example Split_pizza : Split e_zplus "pizza" = ["pi"; "a"].
Proof. reflexivity. Qed.

Example ReplaceAllString_axb : ReplaceAllString e_axb "-ab-axxb-" "T" = "-T-T-".
Proof. reflexivity. Qed.

(** ** The matches of the four patterns *)

Lemma span_le p s : span p s <= List.length s.
Proof. induction s as [|r s' IH]; simpl; [lia|]. destruct (p r); simpl; lia. Qed.

Lemma one_rune_Lit c : one_rune (Lit c) (is_code (byteZ c)).
Proof. intros A s k. reflexivity. Qed.

Lemma one_rune_CharClass neg rg : one_rune (CharClass neg rg) (class_matches neg rg).
Proof. intros A s k. reflexivity. Qed.

Lemma star_one_rune {A : Type} a p (k : list rune -> option A) :
  one_rune a p -> total k ->
  forall n s, List.length s <= n ->
              star_loop (backtrack a) n s k = k (skipn (span p s) s).
Proof.
  intros Ha Hk n. induction n as [|n IH]; intros s Hn.
  - destruct s; [reflexivity|simpl in Hn; lia].
  - simpl star_loop. rewrite Ha.
    destruct s as [|r s']; [reflexivity|].
    simpl span. destruct (p r); [|reflexivity].
    simpl List.length.
    destruct (List.length s' <? S (List.length s')) eqn:Hl; [|apply Nat.ltb_ge in Hl; lia].
    simpl in Hn. rewrite IH by lia. simpl skipn.
    destruct (k (skipn (span p s') s')) eqn:Hk'; [reflexivity|]. now apply Hk in Hk'.
Qed.

Lemma total_count (s : list rune) : total (fun rest => Some (List.length s - List.length rest)).
Proof. intros rest. discriminate. Qed.

Lemma matchPrefix_special s :
  matchPrefix (prog specialCharsPattern) s =
  match s with
  | r :: _ => if is_special r then Some 1 else None
  | [] => None
  end.
Proof.
  destruct s as [|r s']; [reflexivity|].
  unfold matchPrefix, specialCharsPattern. cbn [prog backtrack].
  change (class_matches true _ r) with (is_special r).
  destruct (is_special r); [|reflexivity]. f_equal. simpl List.length. lia.
Qed.

Lemma matchPrefix_para s :
  matchPrefix (prog paraPattern) s =
  match s with
  | r :: s' => if is_lb r then Some (S (span is_ws s')) else None
  | [] => None
  end.
Proof.
  unfold matchPrefix. simpl prog.
  set (k0 := fun rest : list rune => Some (List.length s - List.length rest)).
  assert (HK : forall s1, star_loop (backtrack perl_space) (List.length s1) s1 k0
                          = Some (List.length s - List.length (skipn (span is_ws s1) s1))).
  { intros s1.
    rewrite (star_one_rune perl_space is_ws k0 (one_rune_CharClass _ _) (total_count s))
      by apply Nat.le_refl.
    reflexivity. }
  cbn [backtrack]. fold perl_space.
  destruct s as [|r s']; [reflexivity|].
  change (byteZ LF) with 10%Z. change (byteZ CR) with 13%Z.
  unfold is_lb.
  assert (Hlen : List.length (r :: s') - List.length (skipn (span is_ws s') s') = S (span is_ws s')).
  { rewrite length_skipn. pose proof (span_le is_ws s').
    change (List.length (r :: s')) with (S (List.length s')). lia. }
  destruct (code r =? 10)%Z eqn:H10.
  { rewrite HK. simpl orb. now rewrite Hlen. }
  destruct (code r =? 13)%Z eqn:H13.
  { rewrite HK. simpl orb. now rewrite Hlen. }
  reflexivity.
Qed.

Lemma matchPrefix_space s :
  matchPrefix (prog spacePattern) s =
  match s with
  | r :: s' => if is_sp r then Some (S (span is_sp s')) else None
  | [] => None
  end.
Proof.
  unfold matchPrefix. simpl prog. cbn [backtrack].
  destruct s as [|r s']; [reflexivity|].
  change (byteZ SP) with 32%Z. unfold is_sp at 1.
  destruct (code r =? 32)%Z; [|reflexivity].
  rewrite (star_one_rune (Lit SP) is_sp _ (one_rune_Lit SP) (total_count (r :: s')))
    by apply Nat.le_refl.
  f_equal. rewrite length_skipn. pose proof (span_le is_sp s').
  change (List.length (r :: s')) with (S (List.length s')). lia.
Qed.

Lemma lineBreak_step {A : Type} (K : list rune -> option A) s :
  backtrack lineBreak s K =
  match s with
  | r :: s' =>
    if (code r =? 13)%Z then
      match (match s' with
             | r2 :: s'' => if (code r2 =? 10)%Z then K s'' else None
             | [] => None
             end) with
      | Some x => Some x
      | None => K s'
      end
    else if (code r =? 10)%Z then K s' else None
  | [] => None
  end.
Proof.
  unfold lineBreak. cbn [backtrack].
  change (byteZ LF) with 10%Z. change (byteZ CR) with 13%Z.
  destruct s as [|r s']; [reflexivity|].
  destruct (code r =? 13)%Z eqn:H13.
  - apply Z.eqb_eq in H13. rewrite H13. simpl (13 =? 10)%Z.
    destruct (match s' with [] => None | r2 :: s'' => _ end); [reflexivity|].
    destruct (K s'); reflexivity.
  - reflexivity.
Qed.

Lemma is_lb_13 r : (code r =? 13)%Z = true -> is_lb r = true.
Proof. unfold is_lb. intros ->. apply orb_true_r. Qed.

Lemma is_lb_10 r : (code r =? 10)%Z = true -> is_lb r = true.
Proof. unfold is_lb. now intros ->. Qed.

Lemma is_lb_none r : (code r =? 13)%Z = false -> (code r =? 10)%Z = false -> is_lb r = false.
Proof. unfold is_lb. now intros -> ->. Qed.

Lemma star_lineBreak {A : Type} (K : list rune -> option A) :
  total K ->
  forall n s, List.length s <= n ->
              star_loop (backtrack lineBreak) n s K = K (skipn (span is_lb s) s).
Proof.
  intros HK n. induction n as [|n IH]; intros s Hn.
  - destruct s; [reflexivity|simpl in Hn; lia].
  - cbn [star_loop]. rewrite lineBreak_step.
    destruct s as [|r s']; [reflexivity|].
    cbn [span List.length] in *.
    assert (Hs' : (List.length s' <? S (List.length s')) = true) by (apply Nat.ltb_lt; lia).
    assert (Hfin : forall x, match K x with Some y => Some y | None => K (r :: s') end = K x).
    { intros x. destruct (K x) eqn:E; [reflexivity|]. now apply HK in E. }
    destruct (code r =? 13)%Z eqn:H13.
    + rewrite (is_lb_13 r H13). rewrite Hs', IH by lia. cbn [skipn].
      destruct s' as [|r2 s''].
      * apply Hfin.
      * cbn [span List.length] in *.
        destruct (code r2 =? 10)%Z eqn:H10.
        -- rewrite (is_lb_10 r2 H10).
           assert (Hs'' : (List.length s'' <? S (S (List.length s''))) = true)
             by (apply Nat.ltb_lt; lia).
           rewrite Hs'', IH by lia. cbn [skipn].
           destruct (K (skipn (span is_lb s'') s'')) eqn:E; [reflexivity|].
           now apply HK in E.
        -- apply Hfin.
    + destruct (code r =? 10)%Z eqn:H10.
      * rewrite (is_lb_10 r H10). cbn [skipn]. rewrite Hs', IH by lia. apply Hfin.
      * rewrite (is_lb_none r H13 H10). reflexivity.
Qed.

Lemma matchPrefix_multi s :
  matchPrefix (prog multiNewlinePattern) s =
  if 2 <=? span is_lb s then Some (span is_lb s) else None.
Proof.
  unfold matchPrefix.
  change (prog multiNewlinePattern) with (RepeatMin2 lineBreak).
  set (k0 := fun rest : list rune => Some (List.length s - List.length rest)).
  change (backtrack (RepeatMin2 lineBreak) s k0)
    with (backtrack lineBreak s (fun s1 =>
            backtrack lineBreak s1 (fun s2 =>
              star_loop (backtrack lineBreak) (List.length s2) s2 k0))).
  assert (K2 : forall s2, star_loop (backtrack lineBreak) (List.length s2) s2 k0
                          = Some (List.length s - (List.length s2 - span is_lb s2))).
  { intros s2. rewrite (star_lineBreak k0 (total_count s)) by apply Nat.le_refl.
    unfold k0. now rewrite length_skipn. }
  assert (K1 : forall s1,
             backtrack lineBreak s1 (fun s2 =>
               star_loop (backtrack lineBreak) (List.length s2) s2 k0)
             = if 1 <=? span is_lb s1
               then Some (List.length s - (List.length s1 - span is_lb s1)) else None).
  { intros s1. rewrite lineBreak_step.
    destruct s1 as [|r s1']; [reflexivity|].
    cbn [span].
    destruct (code r =? 13)%Z eqn:H13.
    - rewrite (is_lb_13 r H13). cbn [Nat.leb].
      destruct s1' as [|r2 s''].
      + rewrite K2. reflexivity.
      + destruct (code r2 =? 10)%Z eqn:H10.
        * rewrite K2. cbn [span]. rewrite (is_lb_10 r2 H10). reflexivity.
        * rewrite K2. reflexivity.
    - destruct (code r =? 10)%Z eqn:H10.
      + rewrite (is_lb_10 r H10). cbn [Nat.leb]. rewrite K2. reflexivity.
      + rewrite (is_lb_none r H13 H10). reflexivity. }
  rewrite lineBreak_step.
  destruct s as [|r s']; [reflexivity|].
  cbn [span].
  pose proof (span_le is_lb s') as Hle.
  destruct (code r =? 13)%Z eqn:H13.
  - rewrite (is_lb_13 r H13).
    destruct s' as [|r2 s''].
    + rewrite K1. reflexivity.
    + cbn [span List.length] in *.
      pose proof (span_le is_lb s'') as Hle'.
      destruct (code r2 =? 10)%Z eqn:H10.
      * rewrite (is_lb_10 r2 H10) in *. rewrite K1.
        destruct (span is_lb s'') as [|m] eqn:Hsp.
        -- cbn [Nat.leb]. rewrite K1. cbn [span]. rewrite (is_lb_10 r2 H10).
           rewrite Hsp. cbn [Nat.leb List.length]. f_equal. lia.
        -- cbn [Nat.leb]. f_equal. lia.
      * rewrite K1. cbn [span].
        destruct (is_lb r2) eqn:Hlb2.
        -- cbn [Nat.leb List.length]. f_equal. lia.
        -- reflexivity.
  - destruct (code r =? 10)%Z eqn:H10.
    + rewrite (is_lb_10 r H10). rewrite K1.
      destruct (span is_lb s') as [|m] eqn:Hsp.
      * reflexivity.
      * cbn [Nat.leb List.length]. f_equal. lia.
    + rewrite (is_lb_none r H13 H10). reflexivity.
Qed.

Lemma never_empty_special : never_empty (prog specialCharsPattern).
Proof. intros s. rewrite matchPrefix_special. destruct s as [|r ?]; [|destruct (is_special r)]; discriminate. Qed.

Lemma never_empty_para : never_empty (prog paraPattern).
Proof. intros s. rewrite matchPrefix_para. destruct s as [|r ?]; [|destruct (is_lb r)]; discriminate. Qed.

Lemma never_empty_space : never_empty (prog spacePattern).
Proof. intros s. rewrite matchPrefix_space. destruct s as [|r ?]; [|destruct (is_sp r)]; discriminate. Qed.

Lemma never_empty_multi : never_empty (prog multiNewlinePattern).
Proof.
  intros s. rewrite matchPrefix_multi.
  destruct (2 <=? span is_lb s) eqn:H; [|discriminate].
  apply Nat.leb_le in H. intros E. inversion E. lia.
Qed.

(** ** From runes to bytes *)

Lemma byteZ_eqb c d : (byteZ c =? byteZ d)%Z = Ascii.eqb c d.
Proof.
  destruct (Ascii.eqb_spec c d) as [->|Hne].
  - apply Z.eqb_refl.
  - apply Z.eqb_neq. intros H. apply Hne.
    unfold byteZ in H. apply N2Z.inj in H.
    rewrite <- (ascii_N_embedding c), <- (ascii_N_embedding d). now f_equal.
Qed.

Lemma is_lb_ascii c w : is_lb (mkRune (byteZ c) w) = is_linebreak c.
Proof.
  unfold is_lb, is_linebreak. simpl code.
  change 10%Z with (byteZ LF). change 13%Z with (byteZ CR).
  now rewrite !byteZ_eqb.
Qed.

Lemma is_sp_ascii c w : is_sp (mkRune (byteZ c) w) = Ascii.eqb c SP.
Proof.
  unfold is_sp. simpl code. change 32%Z with (byteZ SP). apply byteZ_eqb.
Qed.

Lemma is_ws_ascii c w : is_ws (mkRune (byteZ c) w) = is_whitespace c.
Proof.
  unfold is_ws, is_whitespace, class_matches, in_ranges, rng. simpl.
  rewrite <- !byteZ_eqb.
  change (byteZ TAB) with 9%Z. change (byteZ LF) with 10%Z. change (byteZ FF) with 12%Z.
  change (byteZ CR) with 13%Z. change (byteZ SP) with 32%Z.
  destruct (byteZ c =? 9)%Z eqn:E9; destruct (byteZ c =? 10)%Z eqn:E10;
  destruct (byteZ c =? 12)%Z eqn:E12; destruct (byteZ c =? 13)%Z eqn:E13;
  destruct (byteZ c =? 32)%Z eqn:E32;
  destruct (9 <=? byteZ c)%Z eqn:L9; destruct (byteZ c <=? 10)%Z eqn:L10;
  destruct (12 <=? byteZ c)%Z eqn:L12; destruct (byteZ c <=? 13)%Z eqn:L13;
  destruct (32 <=? byteZ c)%Z eqn:L32; destruct (byteZ c <=? 32)%Z eqn:L32';
  try reflexivity; zify_tests; lia.
Qed.

Lemma wide_tests z w :
  (0x80 <= z)%Z ->
  is_lb (mkRune z w) = false /\ is_ws (mkRune z w) = false /\ is_sp (mkRune z w) = false.
Proof.
  intros H. unfold is_lb, is_ws, is_sp, class_matches, in_ranges, rng. simpl.
  change (byteZ TAB) with 9%Z. change (byteZ LF) with 10%Z. change (byteZ FF) with 12%Z.
  change (byteZ CR) with 13%Z. change (byteZ SP) with 32%Z.
  repeat split;
    repeat match goal with
           | |- context [(?a =? ?b)%Z] => destruct (a =? b)%Z eqn:?
           | |- context [(?a <=? ?b)%Z] => destruct (a <=? b)%Z eqn:?
           end; try reflexivity; zify_tests; lia.
Qed.

Lemma high_byte_tests c :
  (0x80 <= byteZ c)%Z ->
  is_linebreak c = false /\ is_whitespace c = false /\ Ascii.eqb c SP = false.
Proof.
  intros H. unfold is_linebreak, is_whitespace.
  rewrite <- !byteZ_eqb.
  change (byteZ TAB) with 9%Z. change (byteZ LF) with 10%Z. change (byteZ FF) with 12%Z.
  change (byteZ CR) with 13%Z. change (byteZ SP) with 32%Z.
  repeat split;
    repeat match goal with
           | |- context [(?a =? ?b)%Z] => destruct (a =? b)%Z eqn:?
           end; try reflexivity; zify_tests; lia.
Qed.

Lemma app_cons_last (cur : string) c (w : string) :
  ((cur ++ String c "") ++ w)%string = (cur ++ String c w)%string.
Proof. now rewrite sapp_assoc. Qed.

Lemma high_bytes_cons c w :
  high_bytes (String c w) -> (0x80 <= byteZ c)%Z /\ high_bytes w.
Proof. unfold high_bytes. simpl. intros H. inversion H; auto. Qed.

Lemma para_split_high w : forall c st cur t,
  high_bytes (String c w) ->
  para_split st cur (String c w ++ t) = para_split false (cur ++ String c w) t.
Proof.
  induction w as [|d w' IH]; intros c st cur t Hh;
    apply high_bytes_cons in Hh; destruct Hh as [Hc Hw];
    destruct (high_byte_tests c Hc) as (Hlb & Hws & _).
  - simpl. rewrite Hws, Hlb, andb_false_r. reflexivity.
  - change (String c (String d w') ++ t)%string with (String c (String d w' ++ t)).
    cbn [para_split]. rewrite Hws, Hlb, andb_false_r.
    rewrite IH by exact Hw. now rewrite app_cons_last.
Qed.

Lemma run_split_high w : forall c st cur t,
  high_bytes (String c w) ->
  run_split st cur (String c w ++ t) = run_split false (cur ++ String c w) t.
Proof.
  induction w as [|d w' IH]; intros c st cur t Hh;
    apply high_bytes_cons in Hh; destruct Hh as [Hc Hw];
    destruct (high_byte_tests c Hc) as (Hlb & _ & _).
  - simpl. rewrite Hlb. reflexivity.
  - change (String c (String d w') ++ t)%string with (String c (String d w' ++ t)).
    cbn [run_split]. rewrite Hlb.
    rewrite IH by exact Hw. now rewrite app_cons_last.
Qed.

Lemma collapse_spaces_high w : forall c st t,
  high_bytes (String c w) ->
  collapse_spaces st (String c w ++ t) = (String c w ++ collapse_spaces false t)%string.
Proof.
  induction w as [|d w' IH]; intros c st t Hh;
    apply high_bytes_cons in Hh; destruct Hh as [Hc Hw];
    destruct (high_byte_tests c Hc) as (_ & _ & Hsp).
  - simpl. rewrite Hsp. reflexivity.
  - change (String c (String d w') ++ t)%string with (String c (String d w' ++ t)).
    cbn [collapse_spaces]. rewrite Hsp.
    rewrite IH by exact Hw. reflexivity.
Qed.

(** [Split] by [paraPattern], on bytes. *)
Lemma split_scan_para rs :
  Forall rune_ok rs ->
  forall cur,
    split_scan (prog paraPattern) (span is_ws rs) cur rs = para_split true cur (bytes rs)
    /\ split_scan (prog paraPattern) 0 cur rs = para_split false cur (bytes rs).
Proof.
  induction 1 as [|r rs' Hr Hrs IH]; intros cur; [split; reflexivity|].
  assert (H2 : split_scan (prog paraPattern) 0 cur (r :: rs')
               = para_split false cur (bytes (r :: rs'))).
  { cbn [split_scan]. rewrite matchPrefix_para.
    destruct Hr as [c Hc | z w Hz Hw Hh].
    - rewrite is_lb_ascii. cbn [bytes raw]. cbn [String.append para_split andb].
      destruct (is_linebreak c).
      + f_equal. apply IH.
      + apply IH.
    - destruct (wide_tests z w Hz) as (-> & _ & _). cbn [bytes raw].
      destruct w as [|c w']; [congruence|].
      rewrite para_split_high by exact Hh. apply IH. }
  split; [|exact H2].
  cbn [span].
  destruct Hr as [c Hc | z w Hz Hw Hh].
  - rewrite is_ws_ascii in *. cbn [bytes raw]. cbn [String.append para_split andb].
    destruct (is_whitespace c) eqn:Hws.
    + cbn [split_scan]. apply IH.
    + rewrite H2. cbn [bytes raw]. cbn [String.append para_split andb]. reflexivity.
  - destruct (wide_tests z w Hz) as (_ & -> & _).
    rewrite H2. cbn [bytes raw].
    destruct w as [|c w']; [congruence|].
    now rewrite !para_split_high by exact Hh.
Qed.

Lemma starts_with_linebreak_bytes rs :
  Forall rune_ok rs ->
  starts_with_linebreak (bytes rs) = match rs with r :: _ => is_lb r | [] => false end.
Proof.
  intros H. destruct H as [|r rs' Hr Hrs]; [reflexivity|].
  destruct Hr as [c Hc | z w Hz Hw Hh].
  - rewrite is_lb_ascii. reflexivity.
  - destruct (wide_tests z w Hz) as (-> & _ & _).
    destruct w as [|c w']; [congruence|].
    apply high_bytes_cons in Hh. destruct Hh as [Hc _].
    destruct (high_byte_tests c Hc) as (Hlb & _ & _). exact Hlb.
Qed.

(** [Split] by [multiNewlinePattern], on bytes. *)
Lemma split_scan_multi rs :
  Forall rune_ok rs ->
  forall cur,
    split_scan (prog multiNewlinePattern) (span is_lb rs) cur rs = run_split true cur (bytes rs)
    /\ split_scan (prog multiNewlinePattern) 0 cur rs = run_split false cur (bytes rs).
Proof.
  induction 1 as [|r rs' Hr Hrs IH]; intros cur; [split; reflexivity|].
  pose proof (starts_with_linebreak_bytes rs' Hrs) as Hnext.
  assert (H2 : split_scan (prog multiNewlinePattern) 0 cur (r :: rs')
               = run_split false cur (bytes (r :: rs'))).
  { cbn [split_scan]. rewrite matchPrefix_multi. cbn [span].
    destruct Hr as [c Hc | z w Hz Hw Hh].
    - rewrite is_lb_ascii. cbn [bytes raw]. cbn [String.append run_split].
      destruct (is_linebreak c).
      + rewrite Hnext. destruct rs' as [|r2 rs'']; [apply IH|].
        cbn [span]. destruct (is_lb r2) eqn:Hlb2.
        * cbn [Nat.leb]. f_equal.
          pose proof (proj1 (IH "")) as IH1. cbn [span] in IH1. rewrite Hlb2 in IH1.
          exact IH1.
        * cbn [Nat.leb]. apply IH.
      + apply IH.
    - destruct (wide_tests z w Hz) as (-> & _ & _). cbn [bytes raw Nat.leb].
      destruct w as [|c w']; [congruence|].
      rewrite run_split_high by exact Hh. apply IH. }
  split; [|exact H2].
  cbn [span].
  destruct Hr as [c Hc | z w Hz Hw Hh].
  - rewrite is_lb_ascii in *. cbn [bytes raw]. cbn [String.append run_split].
    destruct (is_linebreak c) eqn:Hlb.
    + cbn [split_scan]. apply IH.
    + rewrite H2. cbn [bytes raw]. cbn [String.append run_split]. now rewrite Hlb.
  - destruct (wide_tests z w Hz) as (-> & _ & _).
    rewrite H2. cbn [bytes raw].
    destruct w as [|c w']; [congruence|].
    now rewrite !run_split_high by exact Hh.
Qed.

(** [ReplaceAllString] by [spacePattern], on bytes. *)
Lemma replace_scan_space rs :
  Forall rune_ok rs ->
  replace_scan (prog spacePattern) " " (span is_sp rs) rs = collapse_spaces true (bytes rs)
  /\ replace_scan (prog spacePattern) " " 0 rs = collapse_spaces false (bytes rs).
Proof.
  induction 1 as [|r rs' Hr Hrs IH]; [split; reflexivity|].
  assert (H2 : replace_scan (prog spacePattern) " " 0 (r :: rs')
               = collapse_spaces false (bytes (r :: rs'))).
  { cbn [replace_scan]. rewrite matchPrefix_space.
    destruct Hr as [c Hc | z w Hz Hw Hh].
    - rewrite is_sp_ascii. cbn [bytes raw]. cbn [String.append collapse_spaces].
      destruct (Ascii.eqb_spec c SP) as [->|Hne].
      + f_equal. apply IH.
      + f_equal. apply IH.
    - destruct (wide_tests z w Hz) as (_ & _ & ->). cbn [bytes raw].
      destruct w as [|c w']; [congruence|].
      rewrite collapse_spaces_high by exact Hh. f_equal. apply IH. }
  split; [|exact H2].
  cbn [span].
  destruct Hr as [c Hc | z w Hz Hw Hh].
  - rewrite is_sp_ascii in *. cbn [bytes raw]. cbn [String.append collapse_spaces].
    destruct (Ascii.eqb c SP) eqn:Hsp.
    + cbn [replace_scan]. apply IH.
    + rewrite H2. cbn [bytes raw]. cbn [String.append collapse_spaces]. now rewrite Hsp.
  - destruct (wide_tests z w Hz) as (_ & _ & ->).
    rewrite H2. cbn [bytes raw].
    destruct w as [|c w']; [congruence|].
    now rewrite !collapse_spaces_high by exact Hh.
Qed.

(** ** The replacement of [anchor] *)

Lemma is_special_class r : is_special r = negb (in_anchor_class (code r)).
Proof.
  unfold is_special, class_matches, in_ranges, in_anchor_class, in_range, rng. simpl existsb.
  rewrite orb_false_r. cbn [xorb].
  change (byteZ "_") with 95%Z. change (byteZ "-") with 45%Z.
  destruct ((byteZ "a" <=? code r)%Z && (code r <=? byteZ "z")%Z);
  destruct ((byteZ "A" <=? code r)%Z && (code r <=? byteZ "Z")%Z);
  destruct ((byteZ "0" <=? code r)%Z && (code r <=? byteZ "9")%Z);
  destruct (95 <=? code r)%Z eqn:?; destruct (code r <=? 95)%Z eqn:?;
  destruct (45 <=? code r)%Z eqn:?; destruct (code r <=? 45)%Z eqn:?;
  destruct (code r =? 95)%Z eqn:?; destruct (code r =? 45)%Z eqn:?;
  try reflexivity; zify_tests; lia.
Qed.

Lemma replace_scan_special rs :
  replace_scan (prog specialCharsPattern) "-" 0 rs = flatten (map sanitize_rune rs).
Proof.
  induction rs as [|r rs' IH]; [reflexivity|].
  cbn [replace_scan map flatten]. rewrite matchPrefix_special, is_special_class.
  unfold sanitize_rune at 1.
  destruct (in_anchor_class (code r)); cbn [negb]; now rewrite IH.
Qed.

(** ** [strings.Replace] of one byte by another, and of CR LF *)

Lemma prefix_one c x t : String.prefix (String c "") (String x t) = Ascii.eqb x c.
Proof.
  cbn [String.prefix]. destruct (ascii_dec c x) as [->|Hne].
  - rewrite Ascii.eqb_refl. destruct t; reflexivity.
  - symmetry. apply Ascii.eqb_neq. congruence.
Qed.

Lemma replace_from_byte c d s :
  strings.replace_from None 0 s (String c "") (String d "")
  = map_bytes (fun x => if Ascii.eqb x c then d else x) s.
Proof.
  induction s as [|x t IH]; [reflexivity|].
  cbn [strings.replace_from strings.spent map_bytes]. rewrite prefix_one.
  destruct (Ascii.eqb x c); cbn [String.length Nat.sub strings.one_less option_map]; rewrite IH; reflexivity.
Qed.

Lemma Replace_byte c d s :
  c <> d ->
  strings.Replace s (String c "") (String d "") (-1)
  = map_bytes (fun x => if Ascii.eqb x c then d else x) s.
Proof.
  intros Hne. unfold strings.Replace.
  assert (E : String.eqb (String c "") (String d "") = false).
  { apply String.eqb_neq. congruence. }
  rewrite E. cbn. apply replace_from_byte.
Qed.

Lemma prefix_crlf s :
  String.prefix CRLF s =
  match s with
  | String c (String d _) => Ascii.eqb c CR && Ascii.eqb d LF
  | _ => false
  end.
Proof.
  unfold CRLF. destruct s as [|c [|d t]]; cbn [String.prefix].
  - reflexivity.
  - destruct (ascii_dec CR c); reflexivity.
  - destruct (ascii_dec CR c) as [<-|Hc].
    + rewrite Ascii.eqb_refl. destruct (ascii_dec LF d) as [<-|Hd].
      * rewrite Ascii.eqb_refl. destruct t; reflexivity.
      * symmetry. apply Ascii.eqb_neq. congruence.
    + assert (Ascii.eqb c CR = false) as -> by (apply Ascii.eqb_neq; congruence).
      reflexivity.
Qed.

Lemma replace_from_step c t old new :
  strings.replace_from None 0 (String c t) old new =
  if String.prefix old (String c t)
  then (new ++ strings.replace_from None (String.length old - 1) t old new)%string
  else String c (strings.replace_from None 0 t old new).
Proof. reflexivity. Qed.

Lemma replace_from_crlf s :
  strings.replace_from None 0 s CRLF (String LF "") = crlf_to_lf s
  /\ forall c, strings.replace_from None 0 (String c s) CRLF (String LF "")
               = crlf_to_lf (String c s).
Proof.
  induction s as [|d t [IH1 IH2]].
  - split; [reflexivity|]. intros c.
    rewrite replace_from_step, prefix_crlf. reflexivity.
  - split; [apply IH2|]. intros c.
    rewrite replace_from_step, prefix_crlf. cbn [crlf_to_lf].
    destruct (Ascii.eqb c CR && Ascii.eqb d LF).
    + change (String.length CRLF - 1) with 1.
      change (strings.replace_from None 1 (String d t) CRLF (String LF ""))
        with (strings.replace_from None 0 t CRLF (String LF "")).
      now rewrite IH1.
    + now rewrite IH2.
Qed.

Lemma Replace_crlf s :
  strings.Replace s CRLF (String LF "") (-1) = crlf_to_lf s.
Proof. unfold strings.Replace. cbn. apply replace_from_crlf. Qed.

Lemma map_bytes_map_bytes f g s : map_bytes g (map_bytes f s) = map_bytes (fun c => g (f c)) s.
Proof. induction s; simpl; congruence. Qed.

Lemma map_bytes_ext f g s : (forall c, f c = g c) -> map_bytes f s = map_bytes g s.
Proof. intros H. induction s; simpl; congruence. Qed.

Lemma breaks_to_spaces p :
  strings.Replace (strings.Replace p (String CR "") " " (-1)) (String LF "") " " (-1)
  = map_bytes break_to_space p.
Proof.
  change " " with (String SP "").
  rewrite !Replace_byte by discriminate.
  rewrite map_bytes_map_bytes. apply map_bytes_ext. intros c.
  unfold break_to_space, is_linebreak.
  destruct (Ascii.eqb_spec c CR) as [->|H1]; [reflexivity|].
  destruct (Ascii.eqb c LF); reflexivity.
Qed.

(** ** The regular expression calls of the program *)

Lemma Split_paraPattern s : Split paraPattern s = para_split false "" s.
Proof.
  rewrite Split_scan by (apply never_empty_para || discriminate).
  rewrite (proj2 (split_scan_para (runes s) (runes_ok s) "")).
  now rewrite bytes_runes.
Qed.

Lemma Split_multiNewlinePattern s : Split multiNewlinePattern s = run_split false "" s.
Proof.
  rewrite Split_scan by (apply never_empty_multi || discriminate).
  rewrite (proj2 (split_scan_multi (runes s) (runes_ok s) "")).
  now rewrite bytes_runes.
Qed.

Lemma ReplaceAllString_spacePattern s :
  ReplaceAllString spacePattern s " " = collapse_spaces false s.
Proof.
  rewrite ReplaceAllString_scan by apply never_empty_space.
  rewrite (proj2 (replace_scan_space (runes s) (runes_ok s))).
  now rewrite bytes_runes.
Qed.

Lemma ReplaceAllString_specialCharsPattern s :
  ReplaceAllString specialCharsPattern s "-" = sanitize s.
Proof.
  rewrite ReplaceAllString_scan by apply never_empty_special.
  apply replace_scan_special.
Qed.

Lemma Join_wrap (op cl : string) l :
  l <> [] ->
  (op ++ strings.Join l (cl ++ op) ++ cl)%string
  = flatten (map (fun seg => (op ++ seg ++ cl)%string) l).
Proof.
  induction l as [|e l' IH]; [congruence|]. intros _.
  destruct l' as [|e2 rest].
  - simpl. now rewrite !sapp_assoc, sapp_nil_r.
  - specialize (IH ltac:(discriminate)).
    change (strings.Join (e :: e2 :: rest) (cl ++ op))
      with (e ++ (cl ++ op) ++ strings.Join (e2 :: rest) (cl ++ op))%string.
    set (f := fun seg : string => (op ++ seg ++ cl)%string) in *.
    change (flatten (map f (e :: e2 :: rest)))
      with ((op ++ e ++ cl) ++ flatten (map f (e2 :: rest)))%string.
    rewrite <- IH. now rewrite !sapp_assoc.
Qed.

Lemma para_split_nonempty st cur s : para_split st cur s <> [].
Proof.
  revert st cur. induction s as [|c t IH]; intros st cur; simpl; [discriminate|].
  destruct (st && is_whitespace c); [apply IH|].
  destruct (is_linebreak c); [discriminate|apply IH].
Qed.

Lemma pFilter_spec s : pFilter s = p_spec s.
Proof.
  unfold pFilter, p_spec. rewrite Split_paraPattern.
  apply (Join_wrap "<p>" "</p>"). apply para_split_nonempty.
Qed.

Lemma paraFilter_spec s : paraFilter s = para_spec s.
Proof.
  unfold paraFilter, para_spec. rewrite Split_paraPattern.
  apply (Join_wrap "<para>" "</para>"). apply para_split_nonempty.
Qed.

Lemma nobrFilter_spec s : nobrFilter s = nobr_spec s.
Proof.
  unfold nobrFilter, nobr_spec.
  rewrite Replace_crlf, Split_multiNewlinePattern. f_equal.
  apply map_ext. intros p.
  rewrite ReplaceAllString_spacePattern. f_equal. apply breaks_to_spaces.
Qed.

Lemma anchor_spec {A : Type} `{Sprintable A} (x : A) :
  anchor x = sanitize (map_bytes slash_to_underscore (Sprint x)).
Proof.
  unfold anchor. rewrite ReplaceAllString_specialCharsPattern. f_equal.
  unfold strings.ReplaceAll. change "/" with (String "/"%char "").
  change "_" with (String "_"%char ""). rewrite Replace_byte by discriminate.
  reflexivity.
Qed.

Lemma list_ascii_app a b :
  list_ascii_of_string (a ++ b) = list_ascii_of_string a ++ list_ascii_of_string b.
Proof. induction a; simpl; congruence. Qed.

Lemma all_in_class_app a b :
  all_in_class (a ++ b) = all_in_class a && all_in_class b.
Proof. unfold all_in_class. now rewrite list_ascii_app, forallb_app. Qed.

Lemma in_anchor_class_ascii z : in_anchor_class z = true -> (z < 0x80)%Z.
Proof.
  unfold in_anchor_class, in_range.
  change (byteZ "A") with 65%Z. change (byteZ "Z") with 90%Z.
  change (byteZ "a") with 97%Z. change (byteZ "z") with 122%Z.
  change (byteZ "0") with 48%Z. change (byteZ "9") with 57%Z.
  change (byteZ "_") with 95%Z. change (byteZ "-") with 45%Z.
  intros H.
  repeat match type of H with
         | (_ || _)%bool = true => apply orb_prop in H; destruct H as [H|H]
         end; zify_tests; lia.
Qed.

Lemma sanitize_rune_in_class r : rune_ok r -> all_in_class (sanitize_rune r) = true.
Proof.
  intros Hr. unfold sanitize_rune.
  destruct (in_anchor_class (code r)) eqn:Hc; [|reflexivity].
  destruct Hr as [c Hlt | z w Hz Hw Hh].
  - simpl in *. unfold all_in_class. simpl. now rewrite Hc.
  - simpl in Hc. apply in_anchor_class_ascii in Hc. lia.
Qed.

Lemma sanitize_in_class s : all_in_class (sanitize s) = true.
Proof.
  unfold sanitize. pose proof (runes_ok s) as H.
  induction H as [|r rs Hr Hrs IH]; [reflexivity|].
  cbn [map flatten]. rewrite all_in_class_app, IH, sanitize_rune_in_class by exact Hr.
  reflexivity.
Qed.

Lemma Decode_ascii c t :
  (byteZ c < utf8.RuneSelf)%Z -> utf8.DecodeRuneInString (String c t) = (byteZ c, 1).
Proof.
  intros H. unfold utf8.DecodeRuneInString.
  change (String.length (String c t) <? 1) with false. cbv iota.
  change (idx (String c t) 0) with (byteZ c).
  apply Z.ltb_lt in H. now rewrite H.
Qed.

Lemma sanitize_fixed s : all_in_class s = true -> sanitize s = s.
Proof.
  unfold sanitize, runes. induction s as [|c t IH]; [reflexivity|].
  unfold all_in_class. cbn [list_ascii_of_string forallb]. intros H.
  apply andb_prop in H. destruct H as [Hc Ht].
  cbn [runes_from]. rewrite Decode_ascii by (now apply in_anchor_class_ascii).
  cbn [map flatten take Nat.sub]. unfold sanitize_rune at 1. cbn [code raw]. rewrite Hc.
  cbn [String.append]. f_equal. apply IH. exact Ht.
Qed.

Lemma no_slash_fixed s : all_in_class s = true -> map_bytes slash_to_underscore s = s.
Proof.
  induction s as [|c t IH]; [reflexivity|].
  unfold all_in_class. cbn [list_ascii_of_string forallb]. intros H.
  apply andb_prop in H. destruct H as [Hc Ht].
  cbn [map_bytes]. rewrite IH by exact Ht. f_equal.
  unfold slash_to_underscore.
  destruct (Ascii.eqb_spec c "/") as [->|]; [|reflexivity].
  vm_compute in Hc. discriminate.
Qed.

Lemma IndexByte_cutset c :
  strings.IndexByte ("*/" ++ String LF " ") c = is_decoration c.
Proof.
  unfold strings.IndexByte, is_decoration. cbn [String.append list_ascii_of_string existsb].
  rewrite orb_false_r, !orb_assoc.
  rewrite (Ascii.eqb_sym c "*"), (Ascii.eqb_sym c "/"), (Ascii.eqb_sym c LF), (Ascii.eqb_sym c " ").
  reflexivity.
Qed.

Lemma trimLeftASCII_ext s f g :
  (forall c, f c = g c) -> strings.trimLeftASCII s f = strings.trimLeftASCII s g.
Proof. intros E. induction s as [|c t IH]; simpl; [reflexivity|]. rewrite E, IH. reflexivity. Qed.

Lemma trimLeftASCII_decoration s :
  strings.trimLeftASCII s is_decoration = trim_decoration s.
Proof. induction s as [|c t IH]; simpl; [reflexivity|]. now rewrite IH. Qed.

Lemma TrimLeft_decoration s :
  strings.TrimLeft s ("*/" ++ String LF " ") = trim_decoration s.
Proof.
  unfold strings.TrimLeft.
  destruct (String.eqb_spec s "") as [->|Hs]; [reflexivity|].
  cbn [orb]. change (String.eqb ("*/" ++ String LF " ") "") with false. cbv iota.
  change (strings.makeASCIISet ("*/" ++ String LF " "))
    with (Some (strings.IndexByte ("*/" ++ String LF " "))).
  cbv iota beta.
  rewrite (trimLeftASCII_ext s _ is_decoration IndexByte_cutset).
  apply trimLeftASCII_decoration.
Qed.

Lemma trim_decoration_split s :
  exists pre, s = (pre ++ trim_decoration s)%string
              /\ all_decoration pre = true
              /\ starts_with_decoration (trim_decoration s) = false.
Proof.
  induction s as [|c t (pre & E & Hp & Hs)].
  - exists "". repeat split.
  - simpl. destruct (is_decoration c) eqn:Hc.
    + exists (String c pre). repeat split.
      * simpl. now rewrite <- E.
      * unfold all_decoration. simpl. now rewrite Hc.
      * exact Hs.
    + exists "". repeat split. simpl. exact Hc.
Qed.

(** ** The two splits, by what they cut out *)

Lemma is_linebreak_whitespace c : is_linebreak c = true -> is_whitespace c = true.
Proof.
  unfold is_linebreak, is_whitespace.
  destruct (Ascii.eqb c LF), (Ascii.eqb c CR); try discriminate;
    intros _; rewrite ?orb_true_r; reflexivity.
Qed.

Lemma no_linebreak_snoc cur c :
  no_linebreak cur = true -> is_linebreak c = false ->
  no_linebreak (cur ++ String c "") = true.
Proof.
  unfold no_linebreak. rewrite list_ascii_app, forallb_app. intros -> Hc.
  simpl. now rewrite Hc.
Qed.

Lemma para_split_skip s :
  exists w rest,
    s = (w ++ rest)%string /\ all_whitespace w = true
    /\ starts_with_whitespace rest = false
    /\ String.length rest <= String.length s
    /\ forall cur, para_split true cur s = para_split false cur rest.
Proof.
  induction s as [|c t (w & rest & E & Hw & Hr & Hl & Hs)].
  - exists "", "". repeat split; auto.
  - destruct (is_whitespace c) eqn:Hc.
    + exists (String c w), rest. repeat split.
      * simpl. now rewrite <- E.
      * unfold all_whitespace in *. simpl. now rewrite Hc.
      * exact Hr.
      * simpl. lia.
      * intros cur. simpl. rewrite Hc. apply Hs.
    + exists "", (String c t). repeat split; auto.
      intros cur. simpl. now rewrite Hc.
Qed.

Lemma para_split_cut_from n : forall s cur,
  String.length s <= n -> no_linebreak cur = true ->
  para_cut (cur ++ s) (para_split false cur s).
Proof.
  induction n as [|n IH]; intros s cur Hn Hcur.
  - destruct s; [|simpl in Hn; lia]. rewrite sapp_nil_r. now constructor.
  - destruct s as [|c t]; [rewrite sapp_nil_r; now constructor|].
    simpl in Hn. cbn [para_split andb].
    destruct (is_linebreak c) eqn:Hc.
    + destruct (para_split_skip t) as (w & rest & E & Hw & Hr & Hl & Hs).
      rewrite Hs. rewrite E at 1.
      apply para_cut_at; auto.
      apply (IH rest ""); [lia|reflexivity].
    + rewrite <- app_cons_last. apply IH; [lia|]. now apply no_linebreak_snoc.
Qed.

Lemma para_split_cut s : para_cut s (para_split false "" s).
Proof. apply (para_split_cut_from (String.length s) s ""); auto. Qed.

Lemma para_split_no_linebreak seg : forall cur t,
  no_linebreak seg = true ->
  para_split false cur (seg ++ t) = para_split false (cur ++ seg) t.
Proof.
  induction seg as [|c seg' IH]; intros cur t H.
  - now rewrite sapp_nil_r.
  - unfold no_linebreak in H. simpl in H. apply andb_prop in H. destruct H as [Hc H].
    apply negb_true_iff in Hc.
    simpl. rewrite Hc. rewrite IH by exact H. now rewrite app_cons_last.
Qed.

Lemma para_split_whitespace w : forall cur rest,
  all_whitespace w = true -> starts_with_whitespace rest = false ->
  para_split true cur (w ++ rest) = para_split false cur rest.
Proof.
  induction w as [|c w' IH]; intros cur rest Hw Hr.
  - simpl. destruct rest as [|c t]; [reflexivity|]. simpl in *. now rewrite Hr.
  - unfold all_whitespace in Hw. simpl in Hw. apply andb_prop in Hw. destruct Hw as [Hc Hw].
    simpl. rewrite Hc. now apply IH.
Qed.

Lemma para_cut_unique s segs : para_cut s segs -> segs = para_split false "" s.
Proof.
  induction 1 as [seg H | seg c w rest segs Hseg Hc Hw Hr Hcut IH].
  - rewrite <- (sapp_nil_r seg) at 2. rewrite para_split_no_linebreak by exact H. reflexivity.
  - rewrite para_split_no_linebreak by exact Hseg.
    cbn [String.append para_split andb]. rewrite Hc.
    rewrite para_split_whitespace by assumption. now rewrite IH.
Qed.

Lemma ends_with_linebreak_snoc cur c :
  ends_with_linebreak (cur ++ String c "") = is_linebreak c.
Proof.
  induction cur as [|d cur' IH]; [reflexivity|].
  change (String d cur' ++ String c "")%string with (String d (cur' ++ String c "")).
  cbn [ends_with_linebreak]. destruct cur' as [|e cur'']; [reflexivity|]. exact IH.
Qed.

Lemma starts_with_linebreak_app a b :
  starts_with_linebreak (a ++ b) =
  match a with "" => starts_with_linebreak b | _ => starts_with_linebreak a end.
Proof. destruct a; reflexivity. Qed.

Lemma no_run_snoc cur c :
  no_run cur = true -> (ends_with_linebreak cur && is_linebreak c = false) ->
  no_run (cur ++ String c "") = true.
Proof.
  induction cur as [|d cur' IH]; intros Hcur Hend.
  - simpl. now rewrite andb_false_r.
  - change (String d cur' ++ String c "")%string with (String d (cur' ++ String c "")).
    cbn [no_run] in *. apply andb_prop in Hcur. destruct Hcur as [Hd Hcur].
    rewrite starts_with_linebreak_app.
    destruct cur' as [|e cur''].
    + simpl in *. rewrite Hend, andb_false_r. reflexivity.
    + rewrite Hd. cbn [andb]. apply IH; [exact Hcur|exact Hend].
Qed.

Lemma run_split_skip s :
  exists r rest,
    s = (r ++ rest)%string /\ all_linebreak r = true
    /\ starts_with_linebreak rest = false
    /\ String.length rest <= String.length s
    /\ (starts_with_linebreak s = true -> 1 <= String.length r)
    /\ forall cur, run_split true cur s = run_split false cur rest.
Proof.
  induction s as [|c t (r & rest & E & Hr & Hrest & Hl & _ & Hs)].
  - exists "", "". repeat split; auto. discriminate.
  - destruct (is_linebreak c) eqn:Hc.
    + exists (String c r), rest. repeat split.
      * simpl. now rewrite <- E.
      * unfold all_linebreak in *. simpl. now rewrite Hc.
      * exact Hrest.
      * simpl. lia.
      * intros _. simpl. lia.
      * intros cur. simpl. rewrite Hc. apply Hs.
    + exists "", (String c t). repeat split; auto.
      * simpl. intros H. congruence.
      * intros cur. simpl. now rewrite Hc.
Qed.

Lemma run_split_cut_from n : forall s cur,
  String.length s <= n -> no_run cur = true ->
  ends_with_linebreak cur && starts_with_linebreak s = false ->
  run_cut (cur ++ s) (run_split false cur s).
Proof.
  induction n as [|n IH]; intros s cur Hn Hcur Hjoin.
  - destruct s; [|simpl in Hn; lia]. rewrite sapp_nil_r. now constructor.
  - destruct s as [|c t]; [rewrite sapp_nil_r; now constructor|].
    simpl in Hn. cbn [run_split]. cbn [starts_with_linebreak] in Hjoin.
    destruct (is_linebreak c) eqn:Hc.
    + rewrite andb_true_r in Hjoin.
      destruct (starts_with_linebreak t) eqn:Ht.
      * destruct (run_split_skip t) as (r & rest & E & Hr & Hrest & Hl & Hlen & Hs).
        rewrite Hs. rewrite E.
        change (cur ++ String c (r ++ rest))%string with (cur ++ String c r ++ rest)%string.
        apply run_cut_at; auto.
        -- unfold all_linebreak in *. simpl. now rewrite Hc.
        -- specialize (Hlen Ht). simpl. lia.
        -- apply (IH rest ""); [lia|reflexivity|reflexivity].
      * rewrite <- app_cons_last. apply IH; [lia| |].
        -- apply no_run_snoc; [exact Hcur|]. now rewrite Hjoin.
        -- now rewrite Ht, andb_false_r.
    + rewrite <- app_cons_last. apply IH; [lia| |].
      * apply no_run_snoc; [exact Hcur|]. now rewrite Hc, andb_false_r.
      * now rewrite ends_with_linebreak_snoc, Hc.
Qed.

Lemma run_split_cut s : run_cut s (run_split false "" s).
Proof. apply (run_split_cut_from (String.length s) s ""); auto. Qed.

Lemma ends_with_linebreak_cons c p :
  p <> "" -> ends_with_linebreak (String c p) = ends_with_linebreak p.
Proof. destruct p; [congruence|reflexivity]. Qed.

Lemma run_split_no_run p : forall cur t,
  no_run p = true -> ends_with_linebreak p && starts_with_linebreak t = false ->
  run_split false cur (p ++ t) = run_split false (cur ++ p) t.
Proof.
  induction p as [|c p' IH]; intros cur t Hp Hjoin.
  - now rewrite sapp_nil_r.
  - cbn [no_run] in Hp. apply andb_prop in Hp. destruct Hp as [Hc Hp].
    change (String c p' ++ t)%string with (String c (p' ++ t)).
    cbn [run_split].
    assert (Hjoin' : ends_with_linebreak p' && starts_with_linebreak t = false).
    { destruct p' as [|d p'']; [reflexivity|]. exact Hjoin. }
    destruct (is_linebreak c) eqn:Hlb.
    + assert (Hnext : starts_with_linebreak (p' ++ t) = false).
      { rewrite starts_with_linebreak_app. destruct p' as [|d p''].
        - simpl in Hjoin. rewrite Hlb in Hjoin. exact Hjoin.
        - cbn [andb negb] in Hc. now apply negb_true_iff in Hc. }
      rewrite Hnext. rewrite IH by assumption. now rewrite app_cons_last.
    + rewrite IH by assumption. now rewrite app_cons_last.
Qed.

Lemma run_split_linebreaks r : forall cur rest,
  all_linebreak r = true -> starts_with_linebreak rest = false ->
  run_split true cur (r ++ rest) = run_split false cur rest.
Proof.
  induction r as [|c r' IH]; intros cur rest Hr Hrest.
  - simpl. destruct rest as [|c t]; [reflexivity|]. simpl in *. now rewrite Hrest.
  - unfold all_linebreak in Hr. simpl in Hr. apply andb_prop in Hr. destruct Hr as [Hc Hr].
    simpl. rewrite Hc. now apply IH.
Qed.

Lemma run_cut_unique s ps : run_cut s ps -> ps = run_split false "" s.
Proof.
  induction 1 as [p H | p r rest ps Hp Hend Hr Hlen Hrest Hcut IH].
  - rewrite <- (sapp_nil_r p) at 2.
    rewrite run_split_no_run; [reflexivity|exact H|]. simpl. apply andb_false_r.
  - rewrite run_split_no_run; [|exact Hp|now rewrite Hend].
    destruct r as [|c [|c2 r'']]; [simpl in Hlen; lia|simpl in Hlen; lia|].
    unfold all_linebreak in Hr. simpl in Hr.
    apply andb_prop in Hr. destruct Hr as [Hc Hr].
    apply andb_prop in Hr. destruct Hr as [Hc2 Hr].
    cbn [String.append run_split starts_with_linebreak]. rewrite Hc, Hc2.
    rewrite (run_split_linebreaks r'' "" rest Hr Hrest). now rewrite IH.
Qed.

(** * The claims

    ** The name helpers *)

Lemma longName_cases (d : Descriptor) :
  longName d = if has_grandparent d then (parent_name d ++ "." ++ Name d)%string else Name d.
Proof.
  unfold longName, has_grandparent, parent_name.
  destruct (Parent d) as [p|]; [|reflexivity]. destruct (Parent p); reflexivity.
Qed.

Lemma longName_dotted (d : Descriptor) :
  String.eqb (longName d) (parent_name d ++ "." ++ Name d) = has_grandparent d.
Proof.
  rewrite longName_cases. destruct (has_grandparent d); [apply String.eqb_refl|].
  apply String.eqb_neq. intros E. apply (f_equal String.length) in E.
  rewrite !slength_app in E. simpl in E. lia.
Qed.

Lemma has_grandparent_depth (d : Descriptor) : has_grandparent d = (2 <=? depth d).
Proof. destruct d as [n f [[n' f' [g|]]|]]; reflexivity. Qed.

(** C6: [longName] of a node is the name of its parent, a dot and its
    own name exactly when the node has a grandparent, that is when it
    lies at least two levels deep, and its own name otherwise; the field
    [id] of the message [User] of a file gives [User.id], the message
    [User] gives [User]. *)
Theorem longName_two_levels (d : Descriptor) :
  longName d = (if has_grandparent d then (parent_name d ++ "." ++ Name d)%string else Name d)
  /\ String.eqb (longName d) (parent_name d ++ "." ++ Name d) = has_grandparent d
  /\ has_grandparent d = (2 <=? depth d)
  /\ longName e_id = "User.id"
  /\ longName e_User = "User".
Proof.
  split; [apply longName_cases|]. split; [apply longName_dotted|].
  split; [apply has_grandparent_depth|]. split; reflexivity.
Qed.

(** C2, as amended: for a field that refers to a message or an enum,
    [field_type] is the name of that type when the type is declared at
    the top level of a file, and the name of the enclosing type, a dot
    and the name of the type when it is nested; [full_field_type] is its
    full name; for any other field both are the label of the kind. *)
Theorem field_type_names (f : Field) :
  field_type f =
    match referenced_type f with
    | Some d => if has_grandparent d then (parent_name d ++ "." ++ Name d)%string else Name d
    | None => Kind_String (Kind_ (Field_Desc f))
    end
  /\ full_field_type f =
    match referenced_type f with
    | Some d => FullName d
    | None => Kind_String (Kind_ (Field_Desc f))
    end.
Proof.
  unfold field_type, full_field_type, referenced_type.
  destruct (Field_Message f) as [m|].
  - split; [apply longName_cases | reflexivity].
  - destruct (Field_Enum f) as [e|].
    + split; [apply longName_cases | reflexivity].
    + split; reflexivity.
Qed.

(** C2 as stated fails for a field whose type is nested: the field
    [address] of type [User.Address] has the short type name [Address],
    and [field_type] gives [User.Address]. *)
Lemma field_type_nested_not_short_name :
  referenced_type e_address_field = Some e_Address
  /\ Name e_Address = "Address"
  /\ field_type e_address_field = "User.Address"
  /\ field_type e_address_field <> Name e_Address.
Proof. repeat split. discriminate. Qed.

(** C10: [message_type] answers [(none)] for a nil message, while
    [full_message_type] dereferences the nil pointer: it returns for
    every message that is not nil and for no other argument. *)
Theorem message_type_guards_nil :
  message_type None = Returns "(none)"
  /\ full_message_type None = Panics nil_dereference
  /\ (forall f, exists s, message_type f = Returns s)
  /\ ~ (forall f, exists s, full_message_type f = Returns s)
  /\ (forall m, message_type (Some m) = Returns (Name (Message_Desc m))
                /\ full_message_type (Some m) = Returns (FullName (Message_Desc m))).
Proof.
  repeat split.
  - intros [m|]; eexists; reflexivity.
  - intros H. destruct (H None) as [s Hs]. discriminate.
Qed.

(** ** [anchor] *)

Lemma anchor_in_class {A : Type} `{Sprintable A} (x : A) : all_in_class (anchor x) = true.
Proof. rewrite anchor_spec. apply sanitize_in_class. Qed.

Lemma anchor_idempotent {A : Type} `{Sprintable A} (x : A) : anchor (anchor x) = anchor x.
Proof.
  pose proof (anchor_in_class x) as Hc.
  rewrite (anchor_spec (anchor x)). unfold Sprint at 1, Sprint_string.
  rewrite no_slash_fixed by exact Hc. now apply sanitize_fixed.
Qed.

(** C8: [anchor] of any value is its printed form with every slash
    turned into an underscore and then every character outside
    [[A-Za-z0-9_-]] turned into a dash; the loops of the replacement
    reach the end of every input; [Foo/Bar Baz!] gives [Foo_Bar-Baz-]. *)
Theorem anchor_replaces_slash_then_unsafe {A : Type} `{Sprintable A} (x : A) :
  anchor x = sanitize (map_bytes slash_to_underscore (Sprint x))
  /\ anchor "Foo/Bar Baz!" = "Foo_Bar-Baz-".
Proof. split; [apply anchor_spec | reflexivity]. Qed.

(** C3, as amended: [anchor] applied to its own output gives that
    output again, for every input, and the output of [anchor] always
    matches [[A-Za-z0-9_-]*]. *)
Theorem anchor_idempotent_and_safe {A : Type} `{Sprintable A} (x : A) :
  anchor (anchor x) = anchor x /\ all_in_class (anchor x) = true.
Proof. split; [apply anchor_idempotent | apply anchor_in_class]. Qed.

(** C3 as stated fails: no string [s] has [anchor (anchor s)] different
    from [anchor s]. *)
Lemma anchor_not_fixed_point_refuted :
  ~ (exists s : string, anchor (anchor s) <> anchor s).
Proof. intros [s Hs]. apply Hs. apply anchor_idempotent. Qed.

(** ** [description] *)

Lemma description_cases {A : Type} `{Sprintable A} (x : A) :
  description x =
  if strings.HasPrefix (trim_decoration (Sprint x)) "@exclude" then ""
  else trim_decoration (Sprint x).
Proof. unfold description. rewrite TrimLeft_decoration. reflexivity. Qed.

(** C5, as amended: [description] removes the leading run of stars,
    slashes, line feeds and spaces from the printed input; it returns
    the empty string exactly when what remains begins with [@exclude] or
    is empty, and what remains, unchanged, otherwise; the input
    ["  hello world  \n"] gives ["hello world  \n"]. *)
Theorem description_trims_and_redacts {A : Type} `{Sprintable A} (x : A) :
  let val := trim_decoration (Sprint x) in
  (exists pre, Sprint x = (pre ++ val)%string
               /\ all_decoration pre = true
               /\ starts_with_decoration val = false)
  /\ description x = (if strings.HasPrefix val "@exclude" then "" else val)
  /\ String.eqb (description x) "" = (strings.HasPrefix val "@exclude" || String.eqb val "")
  /\ description e_description = ("hello world  " ++ String LF "")%string
  /\ description "/** @exclude internal note */" = "".
Proof.
  intros val. split; [apply trim_decoration_split|].
  pose proof (description_cases x) as E. fold val in E.
  split; [exact E|]. split; [|split; reflexivity].
  rewrite E. destruct (strings.HasPrefix val "@exclude"); reflexivity.
Qed.

(** C5 as stated fails on the empty comment: [description] returns the
    empty string although what remains does not begin with [@exclude]. *)
Lemma description_empty_without_marker :
  description "" = ""
  /\ strings.HasPrefix (trim_decoration (Sprint "")) "@exclude" = false.
Proof. split; reflexivity. Qed.

(** ** The text filters *)

(** C7: [p] splits its input at every line break followed by any run of
    whitespace, wraps every segment in [<p>] and [</p>] and joins the
    wrapped segments with nothing between them, and [para] does the same
    with [<para>]; the input ["a\nb\n\nc"] gives
    [<p>a</p><p>b</p><p>c</p>]. *)
Theorem p_splits_and_wraps (s : string) :
  pFilter s = flatten (map (wrap "<p>" "</p>") (para_split false "" s))
  /\ paraFilter s = flatten (map (wrap "<para>" "</para>") (para_split false "" s))
  /\ (forall segs, para_cut s segs <-> segs = para_split false "" s)
  /\ pFilter e_p_input = "<p>a</p><p>b</p><p>c</p>".
Proof.
  split; [apply pFilter_spec|]. split; [apply paraFilter_spec|]. split; [|reflexivity].
  intros segs. split; [apply para_cut_unique|]. intros ->. apply para_split_cut.
Qed.

(** C4: [nobr] turns CR LF into LF, splits at the runs of two or more
    line break characters, turns the line breaks left in a paragraph
    into spaces, collapses every run of spaces into one space and joins
    the paragraphs with a blank line; the input
    ["line one\nline two\n\nsecond para"] gives
    ["line one line two\n\nsecond para"]. *)
Theorem nobr_reflows (s : string) :
  nobrFilter s =
    strings.Join
      (map (fun p => collapse_spaces false (map_bytes break_to_space p))
           (run_split false "" (crlf_to_lf s)))
      (String LF (String LF ""))
  /\ (forall t ps, run_cut t ps <-> ps = run_split false "" t)
  /\ nobrFilter e_nobr_input = e_nobr_output.
Proof.
  split; [apply nobrFilter_spec|]. split; [|reflexivity].
  intros t ps. split; [apply run_cut_unique|]. intros ->. apply run_split_cut.
Qed.

(** ** The resolver and the driver *)




Lemma hasMeta_app a b : fs.hasMeta (a ++ b) = fs.hasMeta a || fs.hasMeta b.
Proof. unfold fs.hasMeta. now rewrite list_ascii_app, existsb_app. Qed.


Section GeneratorFacts.

Variable disk : fs.tree.
Variable defaultTemplates : fs.tree.
Variable malformed : string -> bool.
Variable wildcard : (string -> option fs.node) -> string -> result (list string).
Variable strconv_Quote : string -> string.
Variable Template : Type.
Variable New : string -> Template.
Variable Parse : Template -> string -> string -> result Template.
Variable ExecuteTemplate : Template -> string -> File -> string * option error.

Local Abbreviation render :=
  (renderTemplate disk defaultTemplates malformed wildcard strconv_Quote
                  Template New Parse ExecuteTemplate).
Local Abbreviation genAll :=
  (generateFiles disk defaultTemplates malformed wildcard strconv_Quote
                 Template New Parse ExecuteTemplate).
Local Abbreviation fails :=
  (render_fails disk defaultTemplates malformed wildcard strconv_Quote
                Template New Parse ExecuteTemplate).
Local Abbreviation run :=
  (main disk defaultTemplates malformed wildcard strconv_Quote
        Template New Parse ExecuteTemplate).

Lemma render_fails_renderTemplate o file e g :
  fails o file e -> exists g', render o file g = (g', Some e) /\ filename g' = filename g.
Proof.
  unfold render_fails, renderTemplate.
  intros [H | [(tFS & H1 & H2) | (tFS & t & w & H1 & H2 & H3)]].
  - rewrite H. eauto.
  - rewrite H1. unfold Sprint, Sprint_string. rewrite H2. eauto.
  - rewrite H1. unfold Sprint, Sprint_string. rewrite H2, H3. eauto.
Qed.

Lemma generateFiles_app o gen pre rest :
  genAll o gen (pre ++ rest) =
  match genAll o gen pre with
  | (gen1, None) => genAll o gen1 rest
  | (gen1, Some err) => (gen1, Some err)
  end.
Proof.
  revert gen. induction pre as [|f pre IH]; intros gen; [reflexivity|].
  cbn [List.app generateFiles].
  destruct (negb (Generate f)); [apply IH|].
  destruct (generateFile _ _ _ _ _ _ _ _ _ o gen f) as [gen' [err|]]; [reflexivity|apply IH].
Qed.

(** C9: when the rendering of a requested file fails with [e], in the
    resolution of the template source, in finding or parsing the
    template or in its execution, after the files before it were
    generated, the driver returns [e] wrapped in an error whose message
    holds the output filename, made of the stem of the input file and
    the format, and the message of [e]; the files after the failing one
    are not visited, whatever they are, and the response of the plugin
    is that error alone. *)
Theorem render_error_wrapped_and_run_halts
    (o : GenOpts) (gen gen1 : Plugin) (pre post : list File) (f : File) (e : error) :
  genAll o gen pre = (gen1, None) ->
  Generate f = true ->
  fails o f e ->
  let err := wrapError ("issue generating " ++ output_filename o f ++ ": " ++ Error e) e in
  exists g,
    genAll o gen (pre ++ f :: post) = (mkPlugin (Files gen1) (genFiles gen1 ++ [g]), Some err)
    /\ filename g = (GeneratedFilenamePrefix f ++ "." ++ Format o)%string
    /\ Unwrap err = Some e
    /\ (Files gen = pre ++ f :: post -> run o gen = ResponseError (Error err)).
Proof.
  intros Hpre Hgen Hfail err.
  destruct (render_fails_renderTemplate o f e
              (mkGeneratedFile (output_filename o f) (GoImportPath f) "") Hfail)
    as (g & Hg & Hname).
  assert (Hall : genAll o gen (pre ++ f :: post)
                 = (mkPlugin (Files gen1) (genFiles gen1 ++ [g]), Some err)).
  { rewrite generateFiles_app, Hpre. cbn [generateFiles].
    rewrite Hgen. cbn [negb]. unfold generateFile.
    fold (output_filename o f). rewrite Hg. reflexivity. }
  exists g. repeat split; [exact Hall | exact Hname |].
  intros HF. unfold main. rewrite HF, Hall. reflexivity.
Qed.


(** C1, where the code departs from it: with the override directory
    [tpl] and the format [markdown], the template [tpl/markdown.tpl] is
    not found, because the source is rooted at [tpl/tpl]; a template at
    [tpl/tpl/markdown.tpl] is the one that is read; and an absolute
    override directory is refused with an invalid argument error, not
    with a not-found error. *)
Theorem override_directory_is_nested_twice (file : File) (g : GeneratedFile) :
  renderTemplate disk_direct defaultTemplates malformed wildcard strconv_Quote
                 Template New Parse ExecuteTemplate override_opts file g
  = (g, Some (errorString "template: pattern matches no files: `markdown.tpl`"))
  /\ getTemplateFS defaultTemplates override_opts = Ok (fs.subFS (fs.dirFS "tpl") "tpl")
  /\ ParseFS disk_nested malformed wildcard strconv_Quote Template Parse
             (New "file.tpl") (fs.subFS (fs.dirFS "tpl") "tpl") "markdown.tpl"
     = (t <- Parse (New "file.tpl") "markdown.tpl" "nested" ;; Ok t)
  /\ getTemplateFS defaultTemplates (mkGenOpts "markdown" "/tpl")
     = Err (PathError "sub" "/tpl" fs.ErrInvalid).
Proof. repeat split. Qed.

End GeneratorFacts.

(** The hypotheses of C9 hold when the first of two requested files
    finds no template: the response is the wrapped error alone. *)
Lemma render_error_wrapped_and_run_halts_witness :
  generateFiles disk_direct (fun _ => None) (fun _ => false) no_wildcard (fun s => s)
                sample_Template sample_New sample_Parse sample_Execute
                override_opts e_plugin [] = (e_plugin, None)
  /\ Generate e_first = true
  /\ render_fails disk_direct (fun _ => None) (fun _ => false) no_wildcard (fun s => s)
                  sample_Template sample_New sample_Parse sample_Execute
                  override_opts e_first
                  (errorString "template: pattern matches no files: `markdown.tpl`")
  /\ main disk_direct (fun _ => None) (fun _ => false) no_wildcard (fun s => s)
          sample_Template sample_New sample_Parse sample_Execute
          override_opts e_plugin
     = ResponseError
         "issue generating first.markdown: template: pattern matches no files: `markdown.tpl`".
Proof.
  assert (H1 : generateFiles disk_direct (fun _ => None) (fun _ => false) no_wildcard (fun s => s)
                 sample_Template sample_New sample_Parse sample_Execute
                 override_opts e_plugin [] = (e_plugin, None)) by reflexivity.
  assert (H2 : Generate e_first = true) by reflexivity.
  assert (H3 : render_fails disk_direct (fun _ => None) (fun _ => false) no_wildcard (fun s => s)
                 sample_Template sample_New sample_Parse sample_Execute
                 override_opts e_first
                 (errorString "template: pattern matches no files: `markdown.tpl`")).
  { right; left. eexists. split; reflexivity. }
  split; [exact H1|]. split; [exact H2|]. split; [exact H3|].
  destruct (render_error_wrapped_and_run_halts
              disk_direct (fun _ => None) (fun _ => false) no_wildcard (fun s => s)
              sample_Template sample_New sample_Parse sample_Execute
              override_opts e_plugin e_plugin [] [e_second] e_first _ H1 H2 H3)
    as (g & _ & _ & _ & Hrun).
  exact (Hrun eq_refl).
Defined.

(** * Further properties

    ** [p] and [para] *)

Lemma no_linebreak_app a b : no_linebreak (a ++ b) = no_linebreak a && no_linebreak b.
Proof. unfold no_linebreak. now rewrite list_ascii_app, forallb_app. Qed.

Lemma para_cut_no_linebreak s segs :
  para_cut s segs -> Forall (fun seg => no_linebreak seg = true) segs.
Proof. induction 1; constructor; auto. Qed.

Lemma flatten_wrap_no_linebreak op cl segs :
  no_linebreak op = true -> no_linebreak cl = true ->
  Forall (fun seg => no_linebreak seg = true) segs ->
  no_linebreak (flatten (map (wrap op cl) segs)) = true.
Proof.
  intros Hop Hcl H. induction H as [|seg segs Hseg _ IH]; [reflexivity|].
  cbn [map flatten]. unfold wrap at 1.
  now rewrite !no_linebreak_app, Hop, Hseg, Hcl, IH.
Qed.

(** X1: the output of [p] and of [para] holds no line feed and no
    carriage return, whatever the input. *)
Theorem p_output_has_no_line_break (s : string) :
  no_linebreak (pFilter s) = true /\ no_linebreak (paraFilter s) = true.
Proof.
  rewrite pFilter_spec, paraFilter_spec. unfold p_spec, para_spec.
  pose proof (para_cut_no_linebreak s _ (para_split_cut s)) as H.
  split; apply flatten_wrap_no_linebreak; auto.
Qed.

Lemma para_split_one s : no_linebreak s = true -> para_split false "" s = [s].
Proof. intros H. symmetry. apply para_cut_unique. now constructor. Qed.

(** X2: a text without line feed and carriage return is wrapped once,
    unchanged: [p] gives [<p>text</p>] and [para] gives
    [<para>text</para>]. *)
Theorem p_wraps_text_without_line_break (s : string) :
  no_linebreak s = true ->
  pFilter s = ("<p>" ++ s ++ "</p>")%string
  /\ paraFilter s = ("<para>" ++ s ++ "</para>")%string.
Proof.
  intros H. rewrite pFilter_spec, paraFilter_spec. unfold p_spec, para_spec.
  rewrite para_split_one by exact H. cbn [map flatten]. unfold wrap.
  now rewrite !sapp_nil_r.
Qed.

(** The hypothesis of X2 holds for [hello world]. *)
Lemma p_wraps_text_without_line_break_witness :
  no_linebreak "hello world" = true
  /\ pFilter "hello world" = "<p>hello world</p>".
Proof.
  split; [reflexivity|].
  exact (proj1 (p_wraps_text_without_line_break "hello world" eq_refl)).
Defined.

(** ** [nobr] *)

Lemma no_linebreak_cons c t :
  no_linebreak (String c t) = negb (is_linebreak c) && no_linebreak t.
Proof. reflexivity. Qed.

Lemma is_linebreak_CR : is_linebreak CR = true.
Proof. reflexivity. Qed.

Lemma no_linebreak_no_cr s : no_linebreak s = true -> no_cr s = true.
Proof.
  induction s as [|c t IH]; [reflexivity|].
  rewrite no_linebreak_cons. intros H. apply andb_prop in H. destruct H as [Hc Ht].
  unfold no_cr. cbn [list_ascii_of_string forallb]. fold (no_cr t). rewrite IH by exact Ht.
  destruct (Ascii.eqb_spec c CR) as [->|]; [discriminate|reflexivity].
Qed.

Lemma crlf_to_lf_no_cr s : no_cr s = true -> crlf_to_lf s = s.
Proof.
  induction s as [|c t IH]; [reflexivity|].
  unfold no_cr. cbn [list_ascii_of_string forallb]. fold (no_cr t). intros H.
  apply andb_prop in H. destruct H as [Hc Ht]. apply negb_true_iff in Hc.
  cbn [crlf_to_lf]. destruct t as [|d t']; [reflexivity|].
  rewrite Hc. cbn [andb]. now rewrite IH.
Qed.

Lemma no_linebreak_flat s :
  no_linebreak s = true ->
  no_run s = true /\ ends_with_linebreak s = false /\ starts_with_linebreak s = false
  /\ map_bytes break_to_space s = s.
Proof.
  induction s as [|c t IH]; [repeat split|].
  rewrite no_linebreak_cons. intros H. apply andb_prop in H. destruct H as [Hc Ht].
  apply negb_true_iff in Hc. destruct (IH Ht) as (H1 & H2 & H3 & H4).
  repeat split.
  - cbn [no_run]. now rewrite Hc, H1.
  - destruct t as [|d t']; [exact Hc|exact H2].
  - exact Hc.
  - cbn [map_bytes]. rewrite H4. unfold break_to_space. now rewrite Hc.
Qed.

Lemma collapse_spaces_shape s :
  no_double_space (collapse_spaces false s) = true
  /\ no_double_space (collapse_spaces true s) = true
  /\ starts_with_space (collapse_spaces true s) = false.
Proof.
  induction s as [|c t (H1 & H2 & H3)]; [repeat split|].
  cbn [collapse_spaces]. destruct (Ascii.eqb c SP) eqn:Hc.
  - repeat split; auto. cbn [no_double_space]. rewrite H3, H2. now rewrite andb_false_r.
  - assert (E : no_double_space (String c (collapse_spaces false t)) = true).
    { cbn [no_double_space]. now rewrite Hc, H1. }
    repeat split; auto.
Qed.

Lemma collapse_spaces_fixed s :
  no_double_space s = true ->
  collapse_spaces false s = s
  /\ (starts_with_space s = false -> collapse_spaces true s = s).
Proof.
  induction s as [|c t IH]; [repeat split|].
  cbn [no_double_space]. intros H. apply andb_prop in H. destruct H as [Hc Ht].
  apply negb_true_iff in Hc. destruct (IH Ht) as [IH1 IH2].
  cbn [collapse_spaces starts_with_space].
  destruct (Ascii.eqb_spec c SP) as [->|Hne].
  - cbn [andb] in Hc. split; [|discriminate]. now rewrite IH2.
  - split; [|intros _]; now rewrite IH1.
Qed.

Lemma collapse_spaces_no_linebreak st s :
  no_linebreak s = true -> no_linebreak (collapse_spaces st s) = true.
Proof.
  revert st. induction s as [|c t IH]; intros st; [reflexivity|].
  rewrite no_linebreak_cons. intros H. apply andb_prop in H. destruct H as [Hc Ht].
  cbn [collapse_spaces]. destruct (Ascii.eqb_spec c SP) as [->|Hne].
  - destruct st; [now apply IH|]. rewrite no_linebreak_cons. now rewrite IH.
  - rewrite no_linebreak_cons, Hc. now rewrite IH.
Qed.

Lemma map_break_to_space_no_linebreak s :
  no_linebreak (map_bytes break_to_space s) = true.
Proof.
  induction s as [|c t IH]; [reflexivity|].
  cbn [map_bytes]. rewrite no_linebreak_cons, IH. unfold break_to_space.
  destruct (is_linebreak c) eqn:Hc; [reflexivity|now rewrite Hc].
Qed.

Lemma reflow_paragraph_shape p :
  no_linebreak (reflow_paragraph p) = true
  /\ no_double_space (reflow_paragraph p) = true
  /\ (reflow_paragraph p = "" -> p = "").
Proof.
  unfold reflow_paragraph. repeat split.
  - apply collapse_spaces_no_linebreak, map_break_to_space_no_linebreak.
  - apply collapse_spaces_shape.
  - destruct p as [|c t]; [reflexivity|]. cbn [map_bytes collapse_spaces].
    destruct (Ascii.eqb (break_to_space c) SP); discriminate.
Qed.

Lemma reflow_paragraph_fixed q :
  no_linebreak q = true -> no_double_space q = true -> reflow_paragraph q = q.
Proof.
  intros H1 H2. unfold reflow_paragraph.
  destruct (no_linebreak_flat q H1) as (_ & _ & _ & ->).
  now apply collapse_spaces_fixed.
Qed.

Lemma all_linebreak_starts r :
  all_linebreak r = true -> 1 <= String.length r -> starts_with_linebreak r = true.
Proof.
  destruct r as [|c r']; [simpl; lia|]. unfold all_linebreak. simpl.
  intros H _. now apply andb_prop in H.
Qed.

Lemma run_cut_separable t ps : run_cut t ps -> separable ps.
Proof.
  induction 1 as [p H | p r rest ps Hp Hend Hr Hlen Hrest Hcut IH]; [constructor|].
  inversion Hcut as [q Hq E1 E2 | q r2 rest2 qs Hq Hqe Hr2 Hlen2 Hrest2 Hcut2 E1 E2]; subst.
  - constructor; [congruence|constructor].
  - constructor; [|exact IH]. intros _ ->.
    cbn [String.append] in Hrest. rewrite starts_with_linebreak_app in Hrest.
    destruct r2 as [|c r2']; [simpl in Hlen2; lia|].
    rewrite (all_linebreak_starts (String c r2') Hr2) in Hrest by (simpl; lia).
    discriminate.
Qed.

Lemma separable_map f ps :
  (forall p, f p = "" -> p = "") -> separable ps -> separable (map f ps).
Proof.
  intros Hf. induction 1 as [q | q q' qs Hq Hsep IH]; [constructor|].
  cbn [map] in *. constructor; [|exact IH].
  intros Hne E. apply Hf in E. apply Hq; [|exact E].
  destruct qs; [contradiction Hne; reflexivity|discriminate].
Qed.

Lemma Join_cons q q' qs sep :
  strings.Join (q :: q' :: qs) sep = (q ++ sep ++ strings.Join (q' :: qs) sep)%string.
Proof. reflexivity. Qed.

Lemma Join_separable_starts q qs :
  separable (q :: qs) -> qs <> [] -> no_linebreak q = true -> q <> "" ->
  starts_with_linebreak (strings.Join (q :: qs) blank_line) = false.
Proof.
  intros _ Hqs Hq Hne. destruct qs as [|q' qs']; [congruence|].
  rewrite Join_cons, starts_with_linebreak_app.
  destruct q as [|c t]; [congruence|]. apply (no_linebreak_flat _ Hq).
Qed.

Lemma Join_run_cut qs :
  separable qs -> Forall (fun q => no_linebreak q = true) qs ->
  run_cut (strings.Join qs blank_line) qs.
Proof.
  induction 1 as [q | q q' qs Hq Hsep IH]; intros Hall.
  - inversion Hall; subst. apply run_cut_end. now apply no_linebreak_flat.
  - inversion Hall as [|? ? Hq0 Hrest]; subst. rewrite Join_cons.
    inversion Hrest as [|? ? Hq1 _]; subst.
    destruct (no_linebreak_flat q Hq0) as (H1 & H2 & _ & _).
    apply run_cut_at; auto.
    destruct qs as [|q2 qs'].
    + cbn [strings.Join]. apply (no_linebreak_flat _ Hq1).
    + apply Join_separable_starts; auto; try discriminate. apply Hq. discriminate.
Qed.

Lemma run_split_nonempty st cur s : run_split st cur s <> [].
Proof.
  revert st cur. induction s as [|c t IH]; intros st cur; simpl; [discriminate|].
  destruct (is_linebreak c); [|apply IH].
  destruct st; [apply IH|]. destruct (starts_with_linebreak t); [discriminate|apply IH].
Qed.

(** The paragraphs [nobr] joins. *)
Lemma nobr_paragraphs s :
  let qs := map reflow_paragraph (run_split false "" (crlf_to_lf s)) in
  nobrFilter s = strings.Join qs blank_line
  /\ separable qs
  /\ Forall (fun q => no_linebreak q = true) qs
  /\ Forall (fun q => no_double_space q = true) qs.
Proof.
  intros qs. split; [apply nobrFilter_spec|]. split.
  - apply separable_map; [apply reflow_paragraph_shape|].
    apply (run_cut_separable (crlf_to_lf s)). apply run_split_cut.
  - split; apply Forall_map, Forall_forall; intros p _; apply reflow_paragraph_shape.
Qed.

Lemma no_cr_app a b : no_cr (a ++ b) = no_cr a && no_cr b.
Proof. unfold no_cr. now rewrite list_ascii_app, forallb_app. Qed.

Lemma Join_no_cr qs :
  Forall (fun q => no_linebreak q = true) qs -> no_cr (strings.Join qs blank_line) = true.
Proof.
  induction 1 as [|q qs Hq Hqs IH]; [reflexivity|].
  destruct qs as [|q' qs'].
  - cbn [strings.Join]. now apply no_linebreak_no_cr.
  - rewrite Join_cons, !no_cr_app, IH. now rewrite (no_linebreak_no_cr q Hq).
Qed.

Lemma starts_with_space_app a b :
  starts_with_space (a ++ b) =
  match a with "" => starts_with_space b | _ => starts_with_space a end.
Proof. destruct a; reflexivity. Qed.

Lemma no_double_space_app_lf a b :
  no_double_space a = true -> no_double_space b = true ->
  no_double_space (a ++ String LF b) = true.
Proof.
  intros Ha Hb. induction a as [|c t IH].
  - cbn. exact Hb.
  - cbn [no_double_space] in Ha. apply andb_prop in Ha. destruct Ha as [Hc Ht].
    change (String c t ++ String LF b)%string with (String c (t ++ String LF b)).
    cbn [no_double_space]. rewrite IH by exact Ht. rewrite starts_with_space_app.
    destruct t as [|d t'].
    + cbn. now rewrite andb_false_r.
    + now rewrite Hc.
Qed.

Lemma Join_no_double_space qs :
  Forall (fun q => no_double_space q = true) qs ->
  no_double_space (strings.Join qs blank_line) = true.
Proof.
  induction 1 as [|q qs Hq Hqs IH]; [reflexivity|].
  destruct qs as [|q' qs']; [exact Hq|].
  rewrite Join_cons. unfold blank_line at 1. cbn [String.append].
  apply no_double_space_app_lf; [exact Hq|]. cbn [no_double_space starts_with_space].
  exact IH.
Qed.

(** X3: the output of [nobr] holds no carriage return and no two spaces
    next to each other. *)
Theorem nobr_output_is_flat (s : string) :
  no_cr (nobrFilter s) = true /\ no_double_space (nobrFilter s) = true.
Proof.
  destruct (nobr_paragraphs s) as (-> & _ & Hlb & Hsp).
  split; [now apply Join_no_cr | now apply Join_no_double_space].
Qed.

Lemma map_fixed {A : Type} (f : A -> A) l : Forall (fun x => f x = x) l -> map f l = l.
Proof. induction 1; simpl; congruence. Qed.

(** X4: [nobr] applied to its own output gives that output again. *)
Theorem nobr_idempotent (s : string) : nobrFilter (nobrFilter s) = nobrFilter s.
Proof.
  destruct (nobr_paragraphs s) as (E & Hsep & Hlb & Hsp).
  set (qs := map reflow_paragraph (run_split false "" (crlf_to_lf s))) in *.
  rewrite E. rewrite nobrFilter_spec. unfold nobr_spec.
  rewrite crlf_to_lf_no_cr by now apply Join_no_cr.
  rewrite <- (run_cut_unique _ _ (Join_run_cut qs Hsep Hlb)).
  f_equal. apply (map_fixed reflow_paragraph).
  clear E Hsep. induction Hlb as [|q l Hq Hl IH]; [constructor|].
  inversion Hsp; subst. constructor; [now apply reflow_paragraph_fixed|now apply IH].
Qed.

(** X5: [nobr] returns unchanged a text without line feed, carriage
    return and two spaces next to each other. *)
Theorem nobr_keeps_flat_text (s : string) :
  no_linebreak s = true -> no_double_space s = true -> nobrFilter s = s.
Proof.
  intros Hlb Hsp. rewrite nobrFilter_spec. unfold nobr_spec.
  rewrite crlf_to_lf_no_cr by now apply no_linebreak_no_cr.
  rewrite <- (run_cut_unique s [s]) by (apply run_cut_end; now apply no_linebreak_flat).
  cbn [map strings.Join]. now apply reflow_paragraph_fixed.
Qed.

(** The hypotheses of X5 hold for [hello world]. *)
Lemma nobr_keeps_flat_text_witness :
  no_linebreak "hello world" = true /\ no_double_space "hello world" = true
  /\ nobrFilter "hello world" = "hello world".
Proof.
  split; [reflexivity|]. split; [reflexivity|].
  exact (nobr_keeps_flat_text "hello world" eq_refl eq_refl).
Defined.

(** ** [anchor] and [description] *)

(** X6: [anchor] returns unchanged a string made of letters, digits,
    underscores and dashes. *)
Theorem anchor_keeps_safe_text (s : string) : all_in_class s = true -> anchor s = s.
Proof.
  intros H. rewrite anchor_spec. unfold Sprint, Sprint_string.
  rewrite no_slash_fixed by exact H. now apply sanitize_fixed.
Qed.

(** The hypothesis of X6 holds for [Foo_Bar-Baz-]. *)
Lemma anchor_keeps_safe_text_witness :
  all_in_class "Foo_Bar-Baz-" = true /\ anchor "Foo_Bar-Baz-" = "Foo_Bar-Baz-".
Proof. split; [reflexivity|]. exact (anchor_keeps_safe_text "Foo_Bar-Baz-" eq_refl). Defined.






Lemma trim_decoration_fixed s : starts_with_decoration s = false -> trim_decoration s = s.
Proof. destruct s as [|c t]; [reflexivity|]. simpl. now intros ->. Qed.

Lemma trim_decoration_prefix pre s :
  all_decoration pre = true -> trim_decoration (pre ++ s) = trim_decoration s.
Proof.
  induction pre as [|c t IH]; [reflexivity|].
  unfold all_decoration. cbn [list_ascii_of_string forallb]. intros H.
  apply andb_prop in H. destruct H as [Hc Ht].
  cbn [String.append trim_decoration]. rewrite Hc. now apply IH.
Qed.

(** X8: [description] applied to its own output gives that output
    again. *)
Theorem description_idempotent {A : Type} `{Sprintable A} (x : A) :
  description (description x) = description x.
Proof.
  rewrite (description_cases x).
  destruct (strings.HasPrefix (trim_decoration (Sprint x)) "@exclude") eqn:E; [reflexivity|].
  destruct (trim_decoration_split (Sprint x)) as (_ & _ & _ & Hs).
  set (val := trim_decoration (Sprint x)) in *.
  rewrite (description_cases val). change (Sprint val) with val.
  rewrite trim_decoration_fixed by exact Hs. now rewrite E.
Qed.

(** X9: stars, slashes, line feeds and spaces put before a text do not
    change its [description]. *)
Theorem description_ignores_leading_decoration (pre s : string) :
  all_decoration pre = true -> description (pre ++ s)%string = description s.
Proof.
  intros H. rewrite !description_cases. unfold Sprint, Sprint_string.
  now rewrite trim_decoration_prefix.
Qed.

(** The hypothesis of X9 holds for the opening of a block comment. *)
Lemma description_ignores_leading_decoration_witness :
  all_decoration "/** " = true
  /\ description ("/** " ++ "@exclude internal")%string = description "@exclude internal".
Proof.
  split; [reflexivity|].
  exact (description_ignores_leading_decoration "/** " "@exclude internal" eq_refl).
Defined.

(** ** The name helpers, together *)

(** X10: for a field that refers to a message, [full_message_type] of
    the message is [full_field_type] of the field, and [message_type]
    of the message is [field_type] of the field exactly when the
    message is not nested in another type. *)
Theorem message_helpers_agree_with_field_helpers (f : Field) (m : Message) :
  Field_Message f = Some m ->
  full_message_type (Field_Message f) = Returns (full_field_type f)
  /\ (message_type (Field_Message f) = Returns (field_type f)
      <-> has_grandparent (Message_Desc m) = false).
Proof.
  intros E. unfold full_field_type, field_type. rewrite E. split; [reflexivity|].
  cbn [message_type]. unfold Sprint, Sprint_string.
  pose proof (longName_dotted (Message_Desc m)) as Hd.
  rewrite longName_cases in *.
  destruct (has_grandparent (Message_Desc m)).
  - split; [|discriminate]. intros Heq. injection Heq as Heq.
    apply (f_equal String.length) in Heq. rewrite !slength_app in Heq. simpl in Heq. lia.
  - split; reflexivity.
Qed.

(** The hypothesis of X10 holds for the field [address], whose message
    is nested: the two short names differ. *)
Lemma message_helpers_agree_with_field_helpers_witness :
  Field_Message e_address_field = Some (mkMessage e_Address)
  /\ full_message_type (Field_Message e_address_field) = Returns "example.User.Address"
  /\ message_type (Field_Message e_address_field) <> Returns (field_type e_address_field).
Proof.
  split; [reflexivity|].
  destruct (message_helpers_agree_with_field_helpers e_address_field (mkMessage e_Address) eq_refl)
    as [H1 H2].
  split; [exact H1|]. intros H. apply H2 in H. discriminate H.
Defined.

(** X11: for a field that refers to no message and no enum,
    [is_primitive] is false exactly when [field_type] prints [enum],
    [message] or [group]. *)
Theorem is_primitive_by_type_label (f : Field) :
  referenced_type f = None ->
  is_primitive f = negb (existsb (String.eqb (field_type f)) ["enum"; "message"; "group"]).
Proof.
  unfold referenced_type, field_type, is_primitive.
  destruct (Field_Message f); [discriminate|]. destruct (Field_Enum f); [discriminate|].
  intros _. destruct (Kind_ (Field_Desc f)); reflexivity.
Qed.

(** The hypothesis of X11 holds for a field of kind [string]. *)
Lemma is_primitive_by_type_label_witness :
  referenced_type e_id_field = None
  /\ field_type e_id_field = "string"
  /\ is_primitive e_id_field = true.
Proof.
  split; [reflexivity|]. split; [reflexivity|].
  exact (is_primitive_by_type_label e_id_field eq_refl).
Defined.

(** ** The driver *)

Section DriverFacts.

Variable disk : fs.tree.
Variable defaultTemplates : fs.tree.
Variable malformed : string -> bool.
Variable wildcard : (string -> option fs.node) -> string -> result (list string).
Variable strconv_Quote : string -> string.
Variable Template : Type.
Variable New : string -> Template.
Variable Parse : Template -> string -> string -> result Template.
Variable ExecuteTemplate : Template -> string -> File -> string * option error.

Local Abbreviation render :=
  (renderTemplate disk defaultTemplates malformed wildcard strconv_Quote
                  Template New Parse ExecuteTemplate).
Local Abbreviation genOne :=
  (generateFile disk defaultTemplates malformed wildcard strconv_Quote
                 Template New Parse ExecuteTemplate).
Local Abbreviation genAll :=
  (generateFiles disk defaultTemplates malformed wildcard strconv_Quote
                 Template New Parse ExecuteTemplate).
Local Abbreviation fails :=
  (render_fails disk defaultTemplates malformed wildcard strconv_Quote
                Template New Parse ExecuteTemplate).
Local Abbreviation run :=
  (main disk defaultTemplates malformed wildcard strconv_Quote
        Template New Parse ExecuteTemplate).
Local Abbreviation parse :=
  (ParseFS disk malformed wildcard strconv_Quote Template Parse).

(** X12: the loop of [main] does on a list of files what it does on the
    files of the list that are to be generated: the others leave no
    trace in the plugin and raise no error. *)
Theorem files_not_requested_are_skipped (o : GenOpts) (gen : Plugin) (files : list File) :
  genAll o gen files = genAll o gen (filter Generate files).
Proof.
  revert gen. induction files as [|f rest IH]; intros gen; [reflexivity|].
  cbn [generateFiles filter]. destruct (Generate f) eqn:Hf; cbn [negb]; [|apply IH].
  cbn [generateFiles]. rewrite Hf. cbn [negb].
  destruct (genOne o gen f) as [gen' [err|]]; [reflexivity|apply IH].
Qed.




(** X14: when the template of the format is found and parsed and its
    execution fails on no file that is to be generated, the loop of
    [main] returns no error and registers, after the files the plugin
    already holds and in the order of the request, one file per file to
    be generated, named by its stem and the format, holding what the
    template wrote. *)
Theorem successful_run_registers_one_output_per_request
    (o : GenOpts) (tFS : fs.FS) (t : Template) (files : list File) (gen : Plugin) :
  getTemplateFS defaultTemplates o = Ok tFS ->
  parse (New "file.tpl") tFS (Format o ++ ".tpl")%string = Ok t ->
  Forall (fun f => Generate f = true -> snd (ExecuteTemplate t "output" f) = None) files ->
  genAll o gen files =
  (mkPlugin (Files gen)
            (genFiles gen ++ map (generated ExecuteTemplate o t) (filter Generate files)), None).
Proof.
  intros Hfs Hp. revert gen.
  induction files as [|f rest IH]; intros gen Hall.
  - cbn. rewrite List.app_nil_r. now destruct gen.
  - inversion Hall as [|? ? Hf Hrest]; subst. cbn [generateFiles filter].
    destruct (Generate f) eqn:Hg; cbn [negb]; [|now apply IH].
    unfold generateFile at 1, renderTemplate. rewrite Hfs. unfold Sprint, Sprint_string.
    rewrite Hp. specialize (Hf eq_refl).
    destruct (ExecuteTemplate t "output" f) as [w err] eqn:Hx. cbn [snd] in Hf. subst err.
    rewrite IH by exact Hrest. cbn [Files genFiles map]. rewrite <- List.app_assoc.
    unfold generated at 2. rewrite Hx. reflexivity.
Qed.

End DriverFacts.


(** The hypotheses of X14 hold for the default options and the embedded
    template of [markdown]: the imported file is skipped. *)
Lemma successful_run_registers_one_output_per_request_witness :
  getTemplateFS embedded_markdown default_GenOpts
  = Ok (fs.subFS (fs.embedFS embedded_markdown) "templates")
  /\ generateFiles (fun _ => None) embedded_markdown (fun _ => false) no_wildcard (fun s => s)
                   sample_Template sample_New sample_Parse sample_Execute
                   default_GenOpts e_request (Files e_request)
     = (mkPlugin (Files e_request)
                 [mkGeneratedFile "first.markdown" "example" "# API";
                  mkGeneratedFile "second.markdown" "example" "# API"], None).
Proof.
  split; [reflexivity|].
  refine (successful_run_registers_one_output_per_request
            (fun _ => None) embedded_markdown (fun _ => false) no_wildcard
            (fun s => s) sample_Template sample_New sample_Parse sample_Execute
            default_GenOpts (fs.subFS (fs.embedFS embedded_markdown) "templates")
            [("markdown.tpl", "# API")] (Files e_request) e_request eq_refl eq_refl _).
  repeat constructor.
Defined.

(** ** The template resolver *)

Lemma eqb_app_tpl_dot f : String.eqb (f ++ ".tpl") "." = false.
Proof.
  apply String.eqb_neq. intros E. apply (f_equal String.length) in E.
  rewrite slength_app in E. simpl in E. lia.
Qed.

Lemma template_name_facts o :
  template_name o <> "" /\ template_name o <> "."
  /\ (fs.hasMeta (Format o) = false -> fs.hasMeta (template_name o) = false).
Proof.
  unfold template_name. repeat split.
  - intros E. apply (f_equal String.length) in E. rewrite slength_app in E. simpl in E. lia.
  - apply String.eqb_neq, eqb_app_tpl_dot.
  - intros H. rewrite hasMeta_app, H. reflexivity.
Qed.

Lemma elements_nonempty s : fs.elements s <> [].
Proof.
  destruct s as [|c t]; [discriminate|]. cbn [fs.elements].
  destruct (Ascii.eqb c "/"); [discriminate|]. destruct (fs.elements t); discriminate.
Qed.

Lemma elements_trailing_slash d : fs.elements (d ++ "/") = fs.elements d ++ [""].
Proof.
  induction d as [|c t IH]; [reflexivity|].
  cbn [String.append fs.elements]. rewrite IH.
  destruct (Ascii.eqb c "/"); [reflexivity|].
  pose proof (elements_nonempty t) as Hne.
  destruct (fs.elements t) as [|e es]; [congruence|reflexivity].
Qed.

Lemma ValidPath_leading_slash d : fs.ValidPath (String "/" d) = false.
Proof.
  unfold fs.ValidPath. destruct (fs.ValidString _); [|reflexivity]. reflexivity.
Qed.

Lemma ValidPath_trailing_slash d : fs.ValidPath (d ++ "/") = false.
Proof.
  unfold fs.ValidPath. destruct (fs.ValidString _); [|reflexivity]. cbn [negb].
  destruct (String.eqb_spec (d ++ "/") ".") as [E|_].
  { destruct d as [|c [|c' t]]; discriminate. }
  rewrite elements_trailing_slash, forallb_app. cbn. apply andb_false_r.
Qed.



Section ResolverFacts.

Variable malformed : string -> bool.
Variable wildcard : (string -> option fs.node) -> string -> result (list string).
Variable strconv_Quote : string -> string.
Variable Template : Type.
Variable New : string -> Template.
Variable Parse : Template -> string -> string -> result Template.
Variable ExecuteTemplate : Template -> string -> File -> string * option error.

Local Abbreviation render disk defaults :=
  (renderTemplate disk defaults malformed wildcard strconv_Quote
                  Template New Parse ExecuteTemplate).
Local Abbreviation parse disk :=
  (ParseFS disk malformed wildcard strconv_Quote Template Parse).
Local Abbreviation no_files name :=
  (errorString ("template: pattern matches no files: " ++ sharp_q strconv_Quote name)).
Local Abbreviation parse_and_execute name text file g :=
  (match Parse (New "file.tpl") (fs.Base name) text with
   | Err e => (g, Some e)
   | Ok t => let (w, err) := ExecuteTemplate t "output" file in (Write g w, err)
   end).

Lemma getTemplateFS_default defaults o :
  TemplateDir o = "" ->
  getTemplateFS defaults o = Ok (fs.subFS (fs.embedFS defaults) "templates").
Proof. intros H. unfold getTemplateFS. rewrite H. reflexivity. Qed.

Lemma parseFiles_embedded disk disk' defaults dir names : forall t,
  parseFiles disk Template Parse t (fs.subFS (fs.embedFS defaults) dir) names
  = parseFiles disk' Template Parse t (fs.subFS (fs.embedFS defaults) dir) names.
Proof.
  induction names as [|file rest IH]; intros t; [reflexivity|].
  cbn [parseFiles].
  change (fs.ReadFile disk (fs.subFS (fs.embedFS defaults) dir) file)
    with (fs.ReadFile disk' (fs.subFS (fs.embedFS defaults) dir) file).
  destruct (fs.ReadFile disk' _ file) as [b|e]; [|reflexivity]. cbn [bind].
  destruct (Parse t (fs.Base file) b) as [t'|e]; [|reflexivity]. cbn [bind]. apply IH.
Qed.

(** X15: [renderTemplate] reads one source of templates: without an
    override directory its result does not depend on the disk, and with
    one it does not depend on the embedded templates. *)
Theorem render_reads_one_template_source
    (disk disk' defaults defaults' : fs.tree) (o : GenOpts) (file : File) (g : GeneratedFile) :
  (TemplateDir o = "" -> render disk defaults o file g = render disk' defaults o file g)
  /\ (TemplateDir o <> "" -> render disk defaults o file g = render disk defaults' o file g).
Proof.
  split; intros H; unfold renderTemplate.
  - rewrite (getTemplateFS_default defaults o H). unfold ParseFS.
    change (fs.Glob disk malformed wildcard (fs.subFS (fs.embedFS defaults) "templates"))
      with (fs.Glob disk' malformed wildcard (fs.subFS (fs.embedFS defaults) "templates")).
    destruct (fs.Glob disk' malformed wildcard _ _) as [[|n ns]|e]; cbn [bind]; try reflexivity.
    now rewrite (parseFiles_embedded disk disk').
  - unfold getTemplateFS. apply String.eqb_neq in H. rewrite H. reflexivity.
Qed.

Lemma Glob_embedded_name disk defaults name :
  fs.hasMeta name = false -> name <> "." ->
  fs.Glob disk malformed wildcard (fs.subFS (fs.embedFS defaults) "templates") name =
  (list <- match (if fs.ValidPath ("templates/" ++ name) then defaults ("templates/" ++ name)%string
                  else None) with
           | Some _ => Ok ["templates/" ++ name]%string
           | None => Ok []
           end ;;
   fs.shorten_all "templates" list).
Proof.
  intros Hm Hdot. cbn [fs.Glob]. rewrite Hm. cbn [andb].
  apply String.eqb_neq in Hdot. rewrite Hdot.
  change ("templates" ++ "/" ++ name)%string with ("templates/" ++ name)%string.
  rewrite hasMeta_app, Hm. change (fs.hasMeta "templates/") with false. cbn [orb negb fs.Stat].
  destruct (fs.ValidPath ("templates/" ++ name)); cbn [negb]; reflexivity.
Qed.

(** X16: without an override directory, a format without pattern syntax
    whose template is not among the embedded ones makes
    [renderTemplate] fail with [template: pattern matches no files] and
    the quoted name of the template, and write nothing. *)
Theorem unknown_format_finds_no_embedded_template
    (disk defaults : fs.tree) (o : GenOpts) (file : File) (g : GeneratedFile) :
  TemplateDir o = "" ->
  fs.hasMeta (Format o) = false ->
  defaults ("templates/" ++ template_name o)%string = None ->
  render disk defaults o file g = (g, Some (no_files (template_name o))).
Proof.
  intros Hdir Hmeta Hnone. destruct (template_name_facts o) as (_ & Hdot & Hm).
  unfold renderTemplate. rewrite (getTemplateFS_default defaults o Hdir).
  unfold ParseFS, Sprint, Sprint_string. fold (template_name o).
  rewrite Glob_embedded_name by auto. rewrite Hnone.
  destruct (fs.ValidPath _); reflexivity.
Qed.






(** X18: an override directory that begins or ends with a slash is
    refused: [renderTemplate] fails with the path error [sub] of that
    directory and writes nothing. *)
Theorem override_directory_with_outer_slash_is_refused
    (disk defaults : fs.tree) (o : GenOpts) (file : File) (g : GeneratedFile) (d : string) :
  TemplateDir o = ("/" ++ d)%string \/ TemplateDir o = (d ++ "/")%string ->
  render disk defaults o file g = (g, Some (PathError "sub" (TemplateDir o) fs.ErrInvalid)).
Proof.
  intros H.
  assert (Hne : String.eqb (TemplateDir o) "" = false).
  { apply String.eqb_neq. destruct H as [-> | ->]; [discriminate|]. destruct d; discriminate. }
  assert (Hv : fs.ValidPath (TemplateDir o) = false).
  { destruct H as [-> | ->]; [apply ValidPath_leading_slash | apply ValidPath_trailing_slash]. }
  unfold renderTemplate, getTemplateFS, fs.Sub. rewrite Hne, Hv. reflexivity.
Qed.



End ResolverFacts.

(** The hypotheses of X16 hold for the format [pdf]. *)
Lemma unknown_format_finds_no_embedded_template_witness :
  TemplateDir (mkGenOpts "pdf" "") = ""
  /\ fs.hasMeta "pdf" = false
  /\ embedded_markdown "templates/pdf.tpl" = None
  /\ forall file g,
     renderTemplate (fun _ => None) embedded_markdown (fun _ => false) no_wildcard (fun s => s)
                    sample_Template sample_New sample_Parse sample_Execute
                    (mkGenOpts "pdf" "") file g
     = (g, Some (errorString "template: pattern matches no files: `pdf.tpl`")).
Proof.
  split; [reflexivity|]. split; [reflexivity|]. split; [reflexivity|]. intros file g.
  exact (unknown_format_finds_no_embedded_template (fun _ => false) no_wildcard (fun s => s)
           sample_Template sample_New sample_Parse sample_Execute
           (fun _ => None) embedded_markdown (mkGenOpts "pdf" "") file g
           eq_refl eq_refl eq_refl).
Defined.


(** The hypothesis of X18 holds for the directory [tpl/]. *)
Lemma override_directory_with_outer_slash_is_refused_witness :
  TemplateDir (mkGenOpts "markdown" "tpl/") = ("tpl" ++ "/")%string
  /\ renderTemplate disk_direct embedded_markdown (fun _ => false) no_wildcard (fun s => s)
                    sample_Template sample_New sample_Parse sample_Execute
                    (mkGenOpts "markdown" "tpl/") e_first
                    (mkGeneratedFile "first.markdown" "example" "")
     = (mkGeneratedFile "first.markdown" "example" "",
        Some (PathError "sub" "tpl/" fs.ErrInvalid)).
Proof.
  split; [reflexivity|].
  exact (override_directory_with_outer_slash_is_refused (fun _ => false) no_wildcard (fun s => s)
           sample_Template sample_New sample_Parse sample_Execute
           disk_direct embedded_markdown (mkGenOpts "markdown" "tpl/") e_first
           (mkGeneratedFile "first.markdown" "example" "") "tpl" (or_intror eq_refl)).
Defined.


